(** * ssh_connect.py: configuration resolution and session relay

    A shallow embedding of [src/ssh-connect/ssh_connect.py] (class
    [SSHClient]) together with the Python built-ins and library calls it
    relies on, followed by the properties of the specification that were
    checked against it. *)

From Stdlib Require Import ZArith NArith List Ascii String Lia.
From stdpp Require Import base option list gmap fin_maps strings.

Local Open Scope Z_scope.

(** ** Python text and the built-ins used by the script *)

Module Py.

(** A Python [str] is a sequence of Unicode code points. *)
Definition pystr : Type := list N.

(** ASCII literals of the script, as code points. *)
Definition text (s : string) : pystr :=
  List.map N_of_ascii (list_ascii_of_string s).

(** [str.isspace] on one code point (CPython's [_PyUnicode_IsWhitespace]). *)
Definition isspace (c : N) : bool :=
  ((9 <=? c) && (c <=? 13) || (28 <=? c) && (c <=? 32)
   || (c =? 133) || (c =? 160) || (c =? 5760)
   || (8192 <=? c) && (c <=? 8202)
   || (c =? 8232) || (c =? 8233) || (c =? 8239) || (c =? 8287)
   || (c =? 12288))%N.

(** [s.lstrip()], [s.rstrip()] and [s.strip()] with no argument. *)
Fixpoint lstrip (s : pystr) : pystr :=
  match s with
  | c :: r => if isspace c then lstrip r else s
  | [] => []
  end.

Definition rstrip (s : pystr) : pystr := rev (lstrip (rev s)).

Definition strip (s : pystr) : pystr := rstrip (lstrip s).

(** [str.lower] per code point. ASCII capitals map to their small
    letters. Outside ASCII only U+212A (KELVIN SIGN, to [k]) and U+0130
    (to [i] followed by U+0307) produce an ASCII code point; every other
    code point lowers to text outside ASCII, which the model keeps as it
    is: the script only compares the result with an ASCII literal. *)
Definition lower_char (c : N) : pystr :=
  (if (65 <=? c) && (c <=? 90) then [c + 32]
   else if c =? 8490 then [107]
   else if c =? 304 then [105; 775]
   else [c])%N.

Definition lower (s : pystr) : pystr := List.concat (List.map lower_char s).

(** Truth value of an [Optional[str]]: [None] and the empty string are false. *)
Definition truthy (o : option pystr) : bool :=
  match o with
  | Some (_ :: _) => true
  | _ => false
  end.

(** [a or b] on [Optional[str]] operands. *)
Definition or_ (a b : option pystr) : option pystr :=
  if truthy a then a else b.

(** *** [int(str)] in base 10 *)

(** Code points of the digit zero of every decimal-digit run of the
    Unicode character database (version 14.0, general category Nd);
    each run holds the ten digits in order. *)
Definition decimal_zeros : list N :=
  [48; 1632; 1776; 1984; 2406; 2534; 2662; 2790; 2918; 3046; 3174; 3302;
   3430; 3558; 3664; 3792; 3872; 4160; 4240; 6112; 6160; 6470; 6608; 6784;
   6800; 6992; 7088; 7232; 7248; 42528; 43216; 43264; 43472; 43504; 43600;
   44016; 65296; 66720; 68912; 69734; 69872; 69942; 70096; 70384; 70736;
   70864; 71248; 71360; 71472; 71904; 72016; 72784; 73040; 73120; 92768;
   92864; 93008; 120782; 120792; 120802; 120812; 120822; 123200; 123632;
   125264; 130032]%N.

(** [Py_UNICODE_TODECIMAL]. *)
Definition to_decimal (c : N) : option Z :=
  match List.find (fun z => (z <=? c) && (c <? z + 10))%N decimal_zeros with
  | Some z => Some (Z.of_N (c - z))
  | None => None
  end.

(** White space skipped around the number: C [isspace] on ASCII, and
    Unicode white space outside ASCII (turned into a blank before the
    number is read). *)
Definition int_space (c : N) : bool :=
  ((9 <=? c) && (c <=? 13) || (c =? 32) || (128 <=? c) && isspace c)%N.

Fixpoint skip_space (s : pystr) : pystr :=
  match s with
  | c :: r => if int_space c then skip_space r else s
  | [] => []
  end.

(** Digits with single underscores between them: returns the value read
    and the unread rest, or [None] on a doubled or trailing underscore. *)
Fixpoint scan_digits (acc : Z) (prev_underscore : bool) (s : pystr)
  : option (Z * pystr) :=
  match s with
  | c :: r =>
      if (c =? 95)%N then
        if prev_underscore then None else scan_digits acc true r
      else
        match to_decimal c with
        | Some d => scan_digits (10 * acc + d) false r
        | None => if prev_underscore then None else Some (acc, s)
        end
  | [] => if prev_underscore then None else Some (acc, [])
  end.

(** The digits of a text: [int] refuses a text with more than
    [sys.int_info.default_max_str_digits] of them, leading zeros counted,
    underscores, sign and white space not. *)
Definition max_str_digits : N := 4300.

Definition digit_count (s : pystr) : N :=
  fold_left
    (fun n c => match to_decimal c with Some _ => (n + 1)%N | None => n end)
    s 0%N.

(** [int(s)]: [None] stands for the [ValueError] Python raises. *)
Definition int (s : pystr) : option Z :=
  let s1 := skip_space s in
  let '(sign, s2) :=
    match s1 with
    | 45%N :: r => (-1, r)
    | 43%N :: r => (1, r)
    | _ => (1, s1)
    end in
  match s2 with
  | c :: _ =>
      match to_decimal c with
      | None => None
      | Some _ =>
          match scan_digits 0 false s2 with
          | Some (v, rest) =>
              match skip_space rest with
              | [] =>
                  if (max_str_digits <? digit_count s2)%N then None
                  else Some (sign * v)
              | _ :: _ => None
              end
          | None => None
          end
      end
  | [] => None
  end.

End Py.

Import Py.

(** ** The process and its surroundings *)

(** What python-dotenv reads from one settings file: the dictionary of its
    bindings ([DotEnv.dict()]); a key written without [=] is bound to
    [None]. *)
Abbreviation dotenv := (gmap pystr (option pystr)).

(** The part of the process state the constructor touches.
    - [environ] is [os.environ];
    - [files] maps the path of every existing file to the bindings
      python-dotenv reads from it (a path that is not a regular file
      reads as no bindings); the files are readable and their bindings
      are ones [os.environ] can hold (no NUL);
    - [cwd] holds the components of [Path.cwd()], outermost first;
    - [pw_uid] and [pw_nam] are the home directories of the password
      database: of the current user ([pwd.getpwuid(os.getuid()).pw_dir])
      and by user name ([pwd.getpwnam(name).pw_dir]). *)
Record World := {
  environ : gmap pystr pystr;
  files : gmap pystr dotenv;
  cwd : list pystr;
  pw_uid : option pystr;
  pw_nam : gmap pystr pystr
}.

Definition set_environ (e : gmap pystr pystr) (w : World) : World :=
  {| environ := e; files := files w; cwd := cwd w;
     pw_uid := pw_uid w; pw_nam := pw_nam w |}.

(** *** pathlib *)

(** [str(p)] for an absolute POSIX path given by its components. *)
Definition path_str (p : list pystr) : pystr :=
  match p with
  | [] => text "/"
  | _ => List.concat (List.map (fun c => text "/" ++ c) p)
  end.

(** [list(p.parents)]: the ancestors of [p], nearest first, down to the root. *)
Definition parents (p : list pystr) : list (list pystr) :=
  List.map (fun n => take n p) (rev (seq 0 (length p))).

(** [p / name]. *)
Definition joinpath (p : list pystr) (name : pystr) : list pystr := p ++ [name].

(** [p.exists()]. *)
Definition exists_ (w : World) (p : list pystr) : bool :=
  bool_decide (is_Some (files w !! path_str p)).

(** *** os *)

(** [os.getenv(key)] and [os.getenv(key, default)]. *)
Definition getenv (w : World) (key : pystr) : option pystr := environ w !! key.

Definition getenv_default (w : World) (key default : pystr) : pystr :=
  match environ w !! key with
  | Some v => v
  | None => default
  end.

(** [path.find("/", 1)] splits [path[1:]] into the user name [path[1:i]]
    and the rest [path[i:]]. *)
Fixpoint split_at_sep (s : pystr) : pystr * pystr :=
  match s with
  | c :: r =>
      if (c =? 47)%N then ([], s)
      else let '(name, tail) := split_at_sep r in (c :: name, tail)
  | [] => ([], [])
  end.

(** [userhome.rstrip("/")]. *)
Fixpoint lstrip_sep (s : pystr) : pystr :=
  match s with
  | c :: r => if (c =? 47)%N then lstrip_sep r else s
  | [] => []
  end.

Definition rstrip_sep (s : pystr) : pystr := rev (lstrip_sep (rev s)).

(** The home directory [expanduser] substitutes for [~name]: [$HOME], or
    else the password-database entry of the current user, for an empty
    name; the entry of [name] otherwise. *)
Definition userhome (w : World) (name : pystr) : option pystr :=
  match name with
  | [] =>
      match environ w !! text "HOME" with
      | Some h => Some h
      | None => pw_uid w
      end
  | _ :: _ => pw_nam w !! name
  end.

(** [os.path.expanduser(path)] (posixpath). *)
Definition expanduser (w : World) (path : pystr) : pystr :=
  match path with
  | c :: after =>
      if (c =? 126)%N then
        let '(name, tail) := split_at_sep after in
        match userhome w name with
        | None => path
        | Some home =>
            match rstrip_sep home ++ tail with
            | [] => text "/"
            | expanded => expanded
            end
        end
      else path
  | [] => path
  end.

(** *** python-dotenv *)

(** [DotEnv.set_as_environment_variables] with [override=False], the
    default the script leaves in place: a key that [os.environ] already
    holds is skipped, a key bound to [None] sets nothing. *)
Definition set_as_environment_variables (d : dotenv) (e : gmap pystr pystr)
  : gmap pystr pystr :=
  map_fold
    (fun k v env =>
       if bool_decide (is_Some (env !! k)) then env
       else match v with
            | Some x => <[k := x]> env
            | None => env
            end)
    e d.

(** [load_dotenv(path)]: a path that names no file loads nothing and is
    not an error. *)
Definition load_dotenv (path : pystr) (w : World) : World :=
  match files w !! path with
  | Some d => set_environ (set_as_environment_variables d (environ w)) w
  | None => w
  end.

(** ** Exceptions *)

Inductive exn :=
| ValueError (msg : pystr)          (* ValueError(msg), as the script raises it *)
| ValueError_int (literal : pystr)  (* the ValueError of int(literal) *)
| AuthenticationException
| SSHException
| socket_error
| UnicodeDecodeError
| AttributeError
| EOFError
| UnicodeEncodeError.

(** The handler [except ValueError] of [main] takes [ValueError] and its
    subclasses [UnicodeDecodeError] and [UnicodeEncodeError]. *)
Definition is_ValueError (e : exn) : bool :=
  match e with
  | ValueError _ | ValueError_int _
  | UnicodeDecodeError | UnicodeEncodeError => true
  | _ => false
  end.

(** The exception of [pwd.getpwnam(name)] before the name is looked up:
    the name is encoded for the file system (UTF-8 with surrogateescape),
    which refuses every surrogate but U+DC80..U+DCFF, and it may hold no
    NUL. *)
Definition getpwnam_error (name : pystr) : option exn :=
  if existsb
       (fun c => (55296 <=? c) && (c <=? 57343)
                 && negb ((56448 <=? c) && (c <=? 56575)))%N name
  then Some UnicodeEncodeError
  else if existsb (fun c => (c =? 0)%N) name
  then Some (ValueError (text "embedded null byte"))
  else None.

(** The exception [os.path.expanduser(path)] raises, if any: only the
    lookup of the user of a [~name] can raise; [expanduser] is the path
    returned when it does not. *)
Definition expanduser_error (path : pystr) : option exn :=
  match path with
  | c :: after =>
      if (c =? 126)%N then
        match fst (split_at_sep after) with
        | [] => None
        | name => getpwnam_error name
        end
      else None
  | [] => None
  end.

Inductive result (A : Type) :=
| Ok (a : A)
| Raise (e : exn).
Arguments Ok {A} a.
Arguments Raise {A} e.

(** ** class SSHClient *)

(** A [paramiko.SSHClient] object: all the script observes of it is
    whether it holds a session that commands can use, a transport that is
    connected and logged in. The transport a refused login leaves behind
    is not such a session; the remote side tells whether there is one. *)
Record ParamikoClient := { transport_active : bool }.

(** The attributes of an [SSHClient] object. *)
Record SSHClient := {
  host : option pystr;
  user : option pystr;
  password : option pystr;
  key_path : option pystr;
  port : Z;
  _client : option ParamikoClient
}.

(** Lines 36-44: load the settings file named by [env_file], or the first
    [.env] found from the working directory upwards. *)
Fixpoint search_env (dirs : list (list pystr)) (w : World) : World :=
  match dirs with
  | parent :: rest =>
      let env_path := joinpath parent (text ".env") in
      if exists_ w env_path then load_dotenv (path_str env_path) w
      else search_env rest w
  | [] => w
  end.

Definition load_env (env_file : option pystr) (w : World) : World :=
  match env_file with
  | Some (c :: f) => load_dotenv (c :: f) w
  | _ => search_env (cwd w :: parents (cwd w)) w
  end.

(** Line 51: [port or int(os.getenv("SSH_PORT", "22"))]. The right operand
    is evaluated, and may raise, only when [port] is [None] or [0]. *)
Definition env_port (w : World) : result Z :=
  let s := getenv_default w (text "SSH_PORT") (text "22") in
  match int s with
  | Some n => Ok n
  | None => Raise (ValueError_int s)
  end.

Definition resolve_port (port : option Z) (w : World) : result Z :=
  match port with
  | Some p => if negb (p =? 0) then Ok p else env_port w
  | None => env_port w
  end.

(** The messages of lines 55, 57 and 59. *)
Definition msg_host : pystr := text "SSH_HOST not set in .env or passed as argument".
Definition msg_user : pystr := text "SSH_USER not set in .env or passed as argument".
Definition msg_auth : pystr :=
  text "SSH_PASSWORD or SSH_KEY_PATH required in .env or as argument".

(** Lines 54-59. *)
Definition validate (host user password key_path : option pystr) : result unit :=
  if negb (truthy host) then Raise (ValueError msg_host)
  else if negb (truthy user) then Raise (ValueError msg_user)
  else if negb (truthy password) && negb (truthy key_path)
  then Raise (ValueError msg_auth)
  else Ok tt.

(** Lines 62-63: the exception of expanding a key path that is present. *)
Definition key_path_error (key_path : option pystr) : option exn :=
  match key_path with
  | Some (c :: r) => expanduser_error (c :: r)
  | _ => None
  end.

(** Lines 47-65, run in the process state left by the loading step. *)
Definition resolve (host user password key_path : option pystr)
    (port : option Z) (w : World) : result SSHClient :=
  let host := or_ host (getenv w (text "SSH_HOST")) in
  let user := or_ user (getenv w (text "SSH_USER")) in
  let password := or_ password (getenv w (text "SSH_PASSWORD")) in
  let key_path := or_ key_path (getenv w (text "SSH_KEY_PATH")) in
  match resolve_port port w with
  | Raise e => Raise e
  | Ok port =>
      match validate host user password key_path with
      | Raise e => Raise e
      | Ok _ =>
          match key_path_error key_path with
          | Some e => Raise e
          | None =>
              Ok {| host := host; user := user; password := password;
                    key_path :=
                      if truthy key_path then expanduser w <$> key_path
                      else key_path;
                    port := port;
                    _client := None |}
          end
      end
  end.

(** [SSHClient.__init__]: the process state it leaves behind, and the new
    object or the exception raised. *)
Definition __init__ (host user password key_path : option pystr)
    (port : option Z) (env_file : option pystr) (w : World)
  : World * result SSHClient :=
  let w' := load_env env_file w in
  (w', resolve host user password key_path port w').

(** ** The session relay *)

(** A Python value stored in the keyword dictionary of [connect]. *)
Inductive value :=
| Str (s : option pystr)
| Int (n : Z).

(** The calls the object makes on paramiko and on the terminal, in order. *)
Inductive effect :=
| Connect (kwargs : gmap pystr value)      (* _client.connect( **kwargs ) *)
| ExecCommand (command : pystr) (timeout : Z)
| InvokeShell
| Send (data : pystr)                      (* channel.send(data) *)
| Close                                    (* _client.close() *)
| Print (s : pystr).                       (* text written to the terminal *)

(** The remote side: whether it accepts a connection ([None]) or which
    exception [connect] raises, and for a command either the exception of
    [exec_command] or, per stream, the decoded text or the exception of
    reading and decoding it. For a refused connection, [leaves_transport]
    tells how far it got: paramiko keeps the transport of a connection
    that reached the SSH negotiation or the login, and has none when the
    socket never connected. *)
Record Remote := {
  accepts : gmap pystr value -> option exn;
  remote_exec : pystr -> Z -> result (result pystr * result pystr);
  leaves_transport : gmap pystr value -> bool
}.

(** The object and the effects so far; an exception leaves both as they
    were when it was raised. *)
Record Process := { self : SSHClient; trace : list effect }.

Definition M (A : Type) : Type := Process -> result A * Process.

Definition ret {A} (a : A) : M A := fun p => (Ok a, p).

Definition raise {A} (e : exn) : M A := fun p => (Raise e, p).

Definition bind {A B} (c : M A) (k : A -> M B) : M B :=
  fun p =>
    match c p with
    | (Ok a, p') => k a p'
    | (Raise e, p') => (Raise e, p')
    end.

#[global] Instance M_ret : MRet M := @ret.
#[global] Instance M_bind : MBind M := fun A B k c => bind c k.

Definition get_self : M SSHClient := fun p => (Ok (self p), p).

Definition with_client (c : option ParamikoClient) (s : SSHClient) : SSHClient :=
  {| host := host s; user := user s; password := password s;
     key_path := key_path s; port := port s; _client := c |}.

(** [self._client = c]. *)
Definition set_client (c : option ParamikoClient) : M unit :=
  fun p => (Ok tt, {| self := with_client c (self p); trace := trace p |}).

Definition emit (e : effect) : M unit :=
  fun p => (Ok tt, {| self := self p; trace := trace p ++ [e] |}).

Definition lift {A} (r : result A) : M A :=
  match r with
  | Ok a => ret a
  | Raise e => raise e
  end.

(** Lines 72-81: the keyword dictionary of [connect]. *)
Definition connect_kwargs (s : SSHClient) : gmap pystr value :=
  let kwargs : gmap pystr value :=
    <[text "username" := Str (user s)]>
      (<[text "port" := Int (port s)]>
         (<[text "hostname" := Str (host s)]> ∅)) in
  if truthy (key_path s)
  then <[text "key_filename" := Str (key_path s)]> kwargs
  else <[text "password" := Str (password s)]> kwargs.

(** [SSHClient.connect]: the new paramiko client is stored before the
    connection is attempted; the host-key policy set on it accepts every
    host and has no other effect here. *)
Definition connect (net : Remote) : M unit :=
  set_client (Some {| transport_active := false |}) ;;
  s ← get_self;
  emit (Connect (connect_kwargs s)) ;;
  match accepts net (connect_kwargs s) with
  | Some e => raise e
  | None => set_client (Some {| transport_active := true |})
  end.

(** [if not self._client: self.connect()]. *)
Definition ensure_client (net : Remote) : M unit :=
  s ← get_self;
  match _client s with
  | Some _ => ret tt
  | None => connect net
  end.

(** A call on [_client] that needs a session. The script makes the call
    on whatever client it holds; on the client of a refused connection
    paramiko raises, its own [SSHException] when that client has a
    transport, [AttributeError] on the missing transport when it has none. *)
Definition with_transport (net : Remote) (e : effect) : M unit :=
  s ← get_self;
  match _client s with
  | Some c =>
      emit e ;;
      if transport_active c then ret tt
      else if leaves_transport net (connect_kwargs s) then raise SSHException
      else raise AttributeError
  | None => raise AttributeError
  end.

Definition newline : pystr := [10%N].

(** Lines 91-97 of [run]: issue the command, read and decode both
    streams, merge and strip. *)
Definition exec_and_read (net : Remote) (command : pystr) (timeout : Z)
  : M pystr :=
  with_transport net (ExecCommand command timeout) ;;
  streams ← lift (remote_exec net command timeout);
  output ← lift (fst streams);
  errors ← lift (snd streams);
  match errors with
  | _ :: _ => ret (strip (output ++ newline ++ errors))
  | [] => ret (strip output)
  end.

(** [SSHClient.run]. *)
Definition run (net : Remote) (command : pystr) (timeout : Z) : M pystr :=
  ensure_client net ;;
  exec_and_read net command timeout.

(** One turn of the loop of [interactive_shell], as the terminal and the
    channel drive it: what [select] and the read of the keyboard yield. *)
Inductive stdin_event :=
| NotReady                                  (* nothing to read within 0.1 s *)
| ReadLine (cmd : pystr)                    (* sys.stdin.readline() *)
| Input (cmd : pystr) (replies : list pystr) (* select fails; input(); drained output *)
| InputEOF                                  (* select fails; input() raises *)
| KeyboardInterrupt.

Record tick := {
  remote_data : option pystr;   (* decoded channel.recv(1024) when recv_ready() *)
  stdin : stdin_event
}.

(** How far the loop got on the turns given. *)
Inductive shell_status := StillRunning | Returned.

(** [cmd.strip().lower() == "exit"]. *)
Definition is_exit (cmd : pystr) : bool :=
  bool_decide (lower (strip cmd) = text "exit").

Fixpoint print_all (chunks : list pystr) : M unit :=
  match chunks with
  | d :: r => emit (Print d) ;; print_all r
  | [] => ret tt
  end.

(** Lines 111-139. *)
Fixpoint relay_loop (turns : list tick) : M shell_status :=
  match turns with
  | [] => ret StillRunning
  | t :: rest =>
      match remote_data t with
      | Some data => emit (Print data)
      | None => ret tt
      end ;;
      match stdin t with
      | NotReady => relay_loop rest
      | ReadLine cmd =>
          if is_exit cmd then ret Returned
          else emit (Send cmd) ;; relay_loop rest
      | Input cmd replies =>
          if is_exit cmd then ret Returned
          else emit (Send (cmd ++ newline)) ;;
               print_all replies ;;
               relay_loop rest
      | InputEOF => raise EOFError
      | KeyboardInterrupt =>
          emit (Print (newline ++ text "Disconnected" ++ newline)) ;;
          ret Returned
      end
  end.

(** [str(x)] inside an f-string. *)
Definition format (o : option pystr) : pystr :=
  match o with
  | Some s => s
  | None => text "None"
  end.

(** [SSHClient.interactive_shell]. *)
Definition interactive_shell (net : Remote) (turns : list tick) : M shell_status :=
  ensure_client net ;;
  with_transport net InvokeShell ;;
  s ← get_self;
  emit (Print (text "Connected to " ++ format (user s) ++ text "@"
               ++ format (host s) ++ newline)) ;;
  emit (Print (text "Type 'exit' to disconnect" ++ newline ++ newline)) ;;
  relay_loop turns.

(** [SSHClient.close]. *)
Definition close : M unit :=
  s ← get_self;
  match _client s with
  | Some _ => emit Close ;; set_client None
  | None => ret tt
  end.

(** [__enter__] and [__exit__]. *)
Definition __enter__ (net : Remote) : M unit := connect net.

Definition __exit__ : M unit := close.

(** What was forwarded to the remote channel: the arguments of
    [channel.send], in order. *)
Definition sent (tr : list effect) : list pystr :=
  omap (fun e => match e with Send d => Some d | _ => None end) tr.

(** ** The command line *)

(** [sep.join(items)]. *)
Fixpoint join (sep : pystr) (items : list pystr) : pystr :=
  match items with
  | [] => []
  | [x] => x
  | x :: rest => x ++ sep ++ join sep rest
  end.

(** [with ssh: body], for a body that ends the way the relay loop does.
    [__enter__] connects; [__exit__] closes when the body returns or
    raises, and lets the exception through; a body still running has not
    left the block. *)
Definition with_ssh (net : Remote) (body : M shell_status) : M shell_status :=
  fun p =>
    match __enter__ net p with
    | (Raise e, p1) => (Raise e, p1)
    | (Ok _, p1) =>
        match body p1 with
        | (Ok StillRunning, p2) => (Ok StillRunning, p2)
        | (r, p2) =>
            match __exit__ p2 with
            | (Ok _, p3) => (r, p3)
            | (Raise e, p3) => (Raise e, p3)
            end
        end
    end.

(** [str(e)]: the message of an exception the script raised itself, and
    [describe e] for the exceptions of Python and paramiko. *)
Definition exn_str (describe : exn -> pystr) (e : exn) : pystr :=
  match e with
  | ValueError msg => msg
  | _ => describe e
  end.

(** How [main] ended: it returned, it called [sys.exit(code)], an
    exception left it, or the interactive loop is still running on the
    turns given. *)
Inductive main_end :=
| Completed
| SysExit (code : Z)
| Uncaught (e : exn)
| Looping.

(** Lines 172-176: the report of the handler [except ValueError]. *)
Definition configuration_report (describe : exn -> pystr) (e : exn)
  : list effect :=
  [Print (text "Configuration error: " ++ exn_str describe e ++ newline);
   Print (newline ++ text "Create a .env file with:" ++ newline);
   Print (text "  SSH_HOST=your-server.com" ++ newline);
   Print (text "  SSH_USER=username" ++ newline);
   Print (text "  SSH_KEY_PATH=~/.ssh/id_rsa  # or SSH_PASSWORD=yourpass"
          ++ newline)].

(** Lines 171-186: the handlers of [main], tried in order. Python's
    [UnicodeDecodeError] and [UnicodeEncodeError] are [ValueError]s, paramiko's
    [AuthenticationException] is an [SSHException], and [socket.error] is
    [OSError]; [AttributeError] and [EOFError] match no handler. *)
Definition handle (describe : exn -> pystr) (e : exn)
  : list effect * main_end :=
  match e with
  | ValueError _ | ValueError_int _
  | UnicodeDecodeError | UnicodeEncodeError =>
      (configuration_report describe e, SysExit 1)
  | AuthenticationException =>
      ([Print (text "Authentication failed. Check your credentials in .env"
               ++ newline)],
       SysExit 1)
  | SSHException =>
      ([Print (text "SSH error: " ++ exn_str describe e ++ newline)], SysExit 1)
  | socket_error =>
      ([Print (text "Connection error: " ++ exn_str describe e ++ newline)],
       SysExit 1)
  | AttributeError | EOFError => ([], Uncaught e)
  end.

(** Lines 162-165: the body of the block in command mode. *)
Definition command_body (net : Remote) (argv : list pystr) : M shell_status :=
  output ← run net (join (text " ") (tail argv)) 30;
  emit (Print (output ++ newline)) ;;
  ret Returned.

(** [main], run as a script: the process state it leaves, the calls and
    the output in order, and how it ended. *)
Definition main (describe : exn -> pystr) (argv : list pystr) (net : Remote)
    (turns : list tick) (w : World) : World * list effect * main_end :=
  match __init__ None None None None None None w with
  | (w', Raise e) => (w', fst (handle describe e), snd (handle describe e))
  | (w', Ok ssh) =>
      let body :=
        if (1 <? length argv)%nat then command_body net argv
        else interactive_shell net turns in
      match with_ssh net body {| self := ssh; trace := [] |} with
      | (Ok Returned, p) => (w', trace p, Completed)
      | (Ok StillRunning, p) => (w', trace p, Looping)
      | (Raise e, p) =>
          (w', trace p ++ fst (handle describe e), snd (handle describe e))
      end
  end.

(** ** Vocabulary of the properties *)

(** The value a settings file binds to [key], if any. *)
Definition binding (d : dotenv) (key : pystr) : option pystr :=
  match d !! key with
  | Some (Some v) => Some v
  | _ => None
  end.

(** The settings file the constructor loads: the one named by [env_file],
    or the first [.env] from the working directory upwards. *)
Fixpoint first_env (w : World) (dirs : list (list pystr)) : option dotenv :=
  match dirs with
  | parent :: rest =>
      match files w !! path_str (joinpath parent (text ".env")) with
      | Some d => Some d
      | None => first_env w rest
      end
  | [] => None
  end.

Definition settings_file (env_file : option pystr) (w : World) : option dotenv :=
  match env_file with
  | Some (c :: f) => files w !! (c :: f)
  | _ => first_env w (cwd w :: parents (cwd w))
  end.

(** What the file and the environment together supply for [key]: the
    environment variable when it is set, else the binding of the file. *)
Definition source_value (key : pystr) (env_file : option pystr) (w : World)
  : option pystr :=
  match environ w !! key with
  | Some v => Some v
  | None =>
      match settings_file env_file w with
      | Some d => binding d key
      | None => None
      end
  end.

(** [name in s]: the text [s] holds [name] somewhere. *)
Fixpoint starts_with (name s : pystr) : bool :=
  match name, s with
  | [], _ => true
  | a :: name', b :: s' => (a =? b)%N && starts_with name' s'
  | _ :: _, [] => false
  end.

Fixpoint mentions (name s : pystr) : bool :=
  starts_with name s
  || match s with
     | [] => false
     | _ :: s' => mentions name s'
     end.

(** Truth value of the [port] argument. *)
Definition truthy_int (p : option Z) : bool :=
  match p with
  | Some n => negb (n =? 0)
  | None => false
  end.

(** The order of the specification: the first non-empty of the override,
    the file's value and the environment's value. *)
Definition spec_first_non_empty (override file env : option pystr) : option pystr :=
  or_ override (or_ file env).

(** Trailing-only trimming, as the specification words [run_command]. *)
Definition spec_trim_trailing (s : pystr) : pystr := rstrip s.

(** An unsigned integer as the specification words port parsing: one or
    more ASCII digits. *)
Definition spec_unsigned (s : pystr) : bool :=
  match s with
  | [] => false
  | _ => forallb (fun c => (48 <=? c) && (c <=? 57))%N s
  end.

(** The line typed at the keyboard in one turn of the relay loop, with
    its newline: what [readline] returned, or what [input] returned and the
    newline it took away. *)
Definition typed_line (t : tick) : option pystr :=
  match stdin t with
  | ReadLine cmd => Some cmd
  | Input cmd _ => Some (cmd ++ newline)
  | _ => None
  end.

(** The turn brings a line that reads [exit] once trimmed and lowered. *)
Definition types_exit (t : tick) : bool :=
  match typed_line t with
  | Some line => is_exit line
  | None => false
  end.

(** The turn brings an interrupt or the end of the input. *)
Definition interrupted (t : tick) : bool :=
  match stdin t with
  | InputEOF | KeyboardInterrupt => true
  | _ => false
  end.

(** What [run] makes of the answer of the remote side to a command. *)
Definition command_result (net : Remote) (command : pystr) (timeout : Z)
  : result pystr :=
  match remote_exec net command timeout with
  | Raise e => Raise e
  | Ok (Raise e, _) => Raise e
  | Ok (Ok _, Raise e) => Raise e
  | Ok (Ok output, Ok []) => Ok (strip output)
  | Ok (Ok output, Ok (c :: errors)) =>
      Ok (strip (output ++ newline ++ c :: errors))
  end.

Definition connected : option ParamikoClient :=
  Some {| transport_active := true |}.

(** ** Sample processes and remote sides *)

(** A process with [SSH_HOST], [SSH_USER] and [SSH_PASSWORD] in its
    environment and a [.env] in the working directory [/srv] that binds
    [SSH_HOST] to another value. *)
Definition world_env_and_file : World :=
  {| environ :=
       <[text "SSH_HOST" := text "e"]>
         (<[text "SSH_USER" := text "u"]>
            (<[text "SSH_PASSWORD" := text "p"]> ∅));
     files := <[text "/srv/.env" := <[text "SSH_HOST" := Some (text "f")]> ∅]> ∅;
     cwd := [text "srv"];
     pw_uid := None;
     pw_nam := ∅ |}.

(** A process with an empty environment, started in [/srv] next to a
    [.env] that holds a full configuration. *)
Definition world_file_only : World :=
  {| environ := ∅;
     files :=
       <[text "/srv/.env" :=
           <[text "SSH_HOST" := Some (text "h")]>
             (<[text "SSH_USER" := Some (text "u")]>
                (<[text "SSH_PASSWORD" := Some (text "p")]> ∅))]> ∅;
     cwd := [text "srv"];
     pw_uid := None;
     pw_nam := ∅ |}.

(** A process whose environment carries a negative port. *)
Definition world_negative_port : World :=
  {| environ := <[text "SSH_PORT" := text "-5"]> ∅;
     files := ∅; cwd := []; pw_uid := None; pw_nam := ∅ |}.

(** A process whose environment carries a port that is no number. *)
Definition world_bad_port : World :=
  {| environ := <[text "SSH_PORT" := text "abc"]> ∅;
     files := ∅; cwd := []; pw_uid := None; pw_nam := ∅ |}.

(** A process with nothing configured. *)
Definition world_empty : World :=
  {| environ := ∅; files := ∅; cwd := []; pw_uid := None; pw_nam := ∅ |}.

(** The settings file of the scenario of C8. *)
Definition scenario_file : dotenv :=
  <[text "SSH_HOST" := Some (text "h")]>
    (<[text "SSH_USER" := Some (text "u")]>
       (<[text "SSH_KEY_PATH" := Some (text "~/.ssh/id_rsa")]> ∅)).

(** A process started in [/srv] next to the scenario's [.env], with
    [HOME=/home/me]. *)
Definition world_scenario : World :=
  {| environ := <[text "HOME" := text "/home/me"]> ∅;
     files := <[text "/srv/.env" := scenario_file]> ∅;
     cwd := [text "srv"];
     pw_uid := None;
     pw_nam := ∅ |}.

(** The scenario's process with [SSH_HOST] set in its environment. *)
Definition world_scenario_host_set : World :=
  {| environ :=
       <[text "SSH_HOST" := text "other"]>
         (<[text "HOME" := text "/home/me"]> ∅);
     files := <[text "/srv/.env" := scenario_file]> ∅;
     cwd := [text "srv"];
     pw_uid := None;
     pw_nam := ∅ |}.

(** The scenario's process with a relative [HOME]. *)
Definition world_scenario_relative_home : World :=
  {| environ := <[text "HOME" := text "rel"]> ∅;
     files := <[text "/srv/.env" := scenario_file]> ∅;
     cwd := [text "srv"];
     pw_uid := None;
     pw_nam := ∅ |}.

(** A remote side that accepts every connection and answers every
    command with [" a"] on standard output and nothing on standard error. *)
Definition remote_leading_blank : Remote :=
  {| accepts := fun _ => None;
     remote_exec := fun _ _ => Ok (Ok (text " a"), Ok []);
     leaves_transport := fun _ => false |}.

(** An object as the constructor builds it from a host, a user and a
    password. *)
Definition client_hup : SSHClient :=
  {| host := Some (text "h"); user := Some (text "u");
     password := Some (text "p"); key_path := None; port := 22;
     _client := None |}.

(** A remote side that answers with both streams. *)
Definition remote_both_streams : Remote :=
  {| accepts := fun _ => None;
     remote_exec := fun _ _ => Ok (Ok (text " out "), Ok (text "warn "));
     leaves_transport := fun _ => false |}.

Definition turn (ev : stdin_event) : tick :=
  {| remote_data := None; stdin := ev |}.

(** ** Vocabulary of the further properties *)

(** The calls made on paramiko, without the terminal output. *)
Definition paramiko_calls (tr : list effect) : list effect :=
  List.filter (fun e => match e with Print _ => false | _ => true end) tr.

(** The text written to the terminal, in order. *)
Definition printed (tr : list effect) : list pystr :=
  omap (fun e => match e with Print d => Some d | _ => None end) tr.

(** The effects of one turn of the relay loop that neither ends nor
    interrupts it: the remote output that was ready, then the line typed,
    then, on the path without [select], the output drained after it. *)
Definition turn_effects (t : tick) : list effect :=
  match remote_data t with
  | Some data => [Print data]
  | None => []
  end ++
  match stdin t with
  | ReadLine cmd => [Send cmd]
  | Input cmd replies => Send (cmd ++ newline) :: List.map Print replies
  | _ => []
  end.

(** The turn neither types [exit] nor interrupts the loop. *)
Definition goes_on (t : tick) : bool :=
  negb (types_exit t) && negb (interrupted t).

(** The value of a text of ASCII digits read as a decimal number. *)
Definition decimal_value (s : pystr) : Z :=
  fold_left (fun acc c => 10 * acc + Z.of_N (c - 48)) s 0.

(** What one turn of the relay loop shows of the remote side: the output
    that was ready, and what was drained after the line on the path
    without [select]. *)
Definition turn_output (t : tick) : list pystr :=
  option_list (remote_data t) ++
  match stdin t with
  | Input _ replies => replies
  | _ => []
  end.

(** One letter of [exit] in either case. *)
Definition letter (small capital c : N) : Prop := c = small \/ c = capital.

(** Effects of the conversation itself: a line sent or text written. *)
Definition is_chatter (e : effect) : bool :=
  match e with
  | Send _ | Print _ => true
  | _ => false
  end.

(** Calls that use an open session. *)
Definition uses_session (e : effect) : bool :=
  match e with
  | ExecCommand _ _ | InvokeShell | Send _ => true
  | _ => false
  end.

(** ** Further sample processes and remote sides *)

(** A process in [/srv/app/bin] with a [.env] in [/srv] and another in
    the root directory. *)
Definition world_nested : World :=
  {| environ := ∅;
     files :=
       <[text "/srv/.env" := <[text "SSH_HOST" := Some (text "near")]> ∅]>
         (<[text "/.env" := <[text "SSH_HOST" := Some (text "far")]> ∅]> ∅);
     cwd := [text "srv"; text "app"; text "bin"];
     pw_uid := None;
     pw_nam := ∅ |}.

(** A process whose environment sets [SSH_HOST] to the empty string, next
    to a [.env] that binds it. *)
Definition world_empty_host : World :=
  {| environ := <[text "SSH_HOST" := text ""]> ∅;
     files := <[text "/srv/.env" := <[text "SSH_HOST" := Some (text "f")]> ∅]> ∅;
     cwd := [text "srv"];
     pw_uid := None;
     pw_nam := ∅ |}.

(** A process without [HOME], with a password-database entry, next to a
    [.env] that binds [HOME]. *)
Definition world_home_in_file : World :=
  {| environ := ∅;
     files :=
       <[text "/srv/.env" :=
           <[text "HOME" := Some (text "/opt/keys")]>
             (<[text "SSH_HOST" := Some (text "h")]>
                (<[text "SSH_USER" := Some (text "u")]>
                   (<[text "SSH_KEY_PATH" := Some (text "~/id")]> ∅)))]> ∅;
     cwd := [text "srv"];
     pw_uid := Some (text "/home/me");
     pw_nam := ∅ |}.

(** A process whose environment carries a port beyond the TCP range. *)
Definition world_large_port : World :=
  {| environ := <[text "SSH_PORT" := text "70000"]> ∅;
     files := ∅; cwd := []; pw_uid := None; pw_nam := ∅ |}.

(** A remote side that refuses every login. *)
Definition remote_refusing : Remote :=
  {| accepts := fun _ => Some AuthenticationException;
     remote_exec := fun _ _ => Ok (Ok [], Ok []);
     leaves_transport := fun _ => true |}.

(** A remote side whose commands print blank lines only. *)
Definition remote_blank : Remote :=
  {| accepts := fun _ => None;
     remote_exec := fun _ _ => Ok (Ok (text "  " ++ newline), Ok newline);
     leaves_transport := fun _ => false |}.

(** A remote side whose output is no valid UTF-8. *)
Definition remote_undecodable : Remote :=
  {| accepts := fun _ => None;
     remote_exec := fun _ _ => Ok (Raise UnicodeDecodeError, Ok (text "warn"));
     leaves_transport := fun _ => false |}.

(** ** Lemmas on the built-ins *)

Section Text.

Lemma lstrip_split (s : pystr) :
  exists l, s = l ++ lstrip s /\ forallb isspace l = true.
Proof.
  induction s as [|c r [l [Hs Hl]]]; simpl.
  - exists []; auto.
  - destruct (isspace c) eqn:Hc.
    + exists (c :: l); simpl. rewrite Hc, Hl. split; [congruence | reflexivity].
    + exists []; auto.
Qed.

Lemma lstrip_head (s : pystr) (c : N) (r : pystr) :
  lstrip s = c :: r -> isspace c = false.
Proof.
  induction s as [|a t IH]; simpl; [discriminate|].
  destruct (isspace a) eqn:Ha; [exact IH|].
  intros [= <- _]; exact Ha.
Qed.

Lemma lstrip_idem (s : pystr) : lstrip (lstrip s) = lstrip s.
Proof.
  destruct (lstrip s) as [|c r] eqn:E; [reflexivity|].
  simpl. now rewrite (lstrip_head _ _ _ E).
Qed.

Lemma rstrip_snoc_space (s : pystr) (c : N) :
  isspace c = true -> rstrip (s ++ [c]) = rstrip s.
Proof.
  intros Hc. unfold rstrip. rewrite rev_unit. simpl. now rewrite Hc.
Qed.

Lemma strip_snoc_space (s : pystr) (c : N) :
  isspace c = true -> strip (s ++ [c]) = strip s.
Proof.
  intros Hc. unfold strip.
  induction s as [|a r IH]; simpl.
  - now rewrite Hc.
  - destruct (isspace a); [exact IH|].
    change (a :: r ++ [c]) with ((a :: r) ++ [c]).
    now apply rstrip_snoc_space.
Qed.

(** [strip] takes away a run of white space at each end and nothing
    else; what is left neither starts nor ends with white space. *)
Lemma strip_split (s : pystr) :
  exists l r,
    s = l ++ strip s ++ r
    /\ forallb isspace l = true /\ forallb isspace r = true
    /\ lstrip (strip s) = strip s /\ rstrip (strip s) = strip s.
Proof.
  destruct (lstrip_split s) as [l [Hs Hl]].
  destruct (lstrip_split (rev (lstrip s))) as [r [Hr Hrs]].
  exists l, (rev r). unfold strip, rstrip.
  repeat split.
  - rewrite <- rev_app_distr, <- Hr, rev_involutive. exact Hs.
  - exact Hl.
  - rewrite forallb_forall in *. intros x Hx. apply Hrs.
    now apply in_rev in Hx.
  - destruct (rev (lstrip (rev (lstrip s)))) as [|c t] eqn:E; [reflexivity|].
    simpl.
    assert (Hc : isspace c = false).
    { apply (lstrip_head s c (t ++ rev r)).
      apply (f_equal (@rev N)) in Hr.
      rewrite rev_involutive, rev_app_distr, E in Hr. exact Hr. }
    now rewrite Hc.
  - rewrite rev_involutive, lstrip_idem. reflexivity.
Qed.

Lemma is_exit_newline (cmd : pystr) : is_exit (cmd ++ newline) = is_exit cmd.
Proof.
  unfold is_exit, newline. now rewrite strip_snoc_space.
Qed.

End Text.

(** ** Lemmas on loading the settings file *)

Section Loading.

Lemma binding_insert (d : dotenv) (i k : pystr) (x : option pystr) :
  binding (<[i := x]> d) k = if decide (i = k) then x else binding d k.
Proof.
  unfold binding. rewrite lookup_insert.
  destruct (decide (i = k)); [destruct x|]; reflexivity.
Qed.

(** A variable already set keeps its value; an unset one takes the
    binding of the file. *)
Lemma set_as_environment_variables_lookup
    (d : dotenv) (e : gmap pystr pystr) (k : pystr) :
  set_as_environment_variables d e !! k =
    match e !! k with
    | Some v => Some v
    | None => binding d k
    end.
Proof.
  revert k. unfold set_as_environment_variables.
  apply (map_fold_weak_ind
           (fun (r : gmap pystr pystr) (m : dotenv) =>
              forall k, r !! k = match e !! k with
                                 | Some v => Some v
                                 | None => binding m k
                                 end)).
  - intros k. unfold binding. rewrite lookup_empty. now destruct (e !! k).
  - intros i x m r Hi IH k.
    rewrite binding_insert.
    assert (Hri : r !! i = e !! i).
    { rewrite IH. unfold binding. rewrite Hi. now destruct (e !! i). }
    destruct (decide (i = k)) as [->|Hne].
    + case_bool_decide as Hs.
      * rewrite Hri in *. destruct Hs as [v Hv]. now rewrite Hv.
      * assert (He : e !! k = None).
        { rewrite <- Hri. destruct (r !! k) eqn:E; [|reflexivity].
          exfalso. apply Hs. eauto. }
        rewrite He. destruct x as [v|].
        -- apply lookup_insert_eq.
        -- now rewrite Hri.
    + case_bool_decide; [apply IH|].
      destruct x as [v|]; [|apply IH].
      rewrite lookup_insert_ne by exact Hne. apply IH.
Qed.

Lemma search_env_first (w : World) (dirs : list (list pystr)) :
  search_env dirs w =
    match first_env w dirs with
    | Some d => set_environ (set_as_environment_variables d (environ w)) w
    | None => w
    end.
Proof.
  induction dirs as [|parent rest IH]; simpl; [reflexivity|].
  unfold exists_, load_dotenv.
  destruct (files w !! path_str (joinpath parent (text ".env"))) as [d|] eqn:E.
  - rewrite bool_decide_eq_true_2 by eauto. reflexivity.
  - rewrite bool_decide_eq_false_2 by (intros [? ?]; discriminate). exact IH.
Qed.

Lemma load_env_settings_file (env_file : option pystr) (w : World) :
  load_env env_file w =
    match settings_file env_file w with
    | Some d => set_environ (set_as_environment_variables d (environ w)) w
    | None => w
    end.
Proof.
  unfold load_env, settings_file.
  destruct env_file as [[|c f]|]; try apply search_env_first.
  reflexivity.
Qed.

(** After loading, [os.getenv] answers from the environment first and
    from the file second. *)
Lemma getenv_load_env (env_file : option pystr) (w : World) (key : pystr) :
  getenv (load_env env_file w) key = source_value key env_file w.
Proof.
  unfold getenv, source_value. rewrite load_env_settings_file.
  destruct (settings_file env_file w) as [d|]; simpl.
  - apply set_as_environment_variables_lookup.
  - now destruct (environ w !! key).
Qed.

Lemma load_env_frame (env_file : option pystr) (w : World) :
  files (load_env env_file w) = files w
  /\ cwd (load_env env_file w) = cwd w
  /\ pw_uid (load_env env_file w) = pw_uid w
  /\ pw_nam (load_env env_file w) = pw_nam w.
Proof.
  rewrite load_env_settings_file.
  destruct (settings_file env_file w); simpl; auto.
Qed.

End Loading.

(** ** The configuration resolver *)

Section Resolver.

Lemma expand_if_truthy (w : World) (o : option pystr) :
  (if truthy o then expanduser w <$> o else o) = expanduser w <$> o.
Proof. destruct o as [[|c r]|]; reflexivity. Qed.

Lemma resolve_port_truthy (p : option Z) (w : World) :
  truthy_int p = true -> exists n, p = Some n /\ resolve_port p w = Ok n.
Proof.
  destruct p as [n|]; simpl; [|discriminate].
  intros H. exists n. now rewrite H.
Qed.

Lemma resolve_port_falsy (p : option Z) (w : World) :
  truthy_int p = false -> resolve_port p w = env_port w.
Proof.
  destruct p as [n|]; simpl; [|reflexivity].
  intros H. now rewrite H.
Qed.

(** The constructor, read through the sources. *)
Lemma init_unfold (h u pw k : option pystr) (p : option Z)
    (f : option pystr) (w : World) :
  snd (__init__ h u pw k p f w) =
    match resolve_port p (load_env f w) with
    | Raise e => Raise e
    | Ok n =>
        match validate (or_ h (source_value (text "SSH_HOST") f w))
                       (or_ u (source_value (text "SSH_USER") f w))
                       (or_ pw (source_value (text "SSH_PASSWORD") f w))
                       (or_ k (source_value (text "SSH_KEY_PATH") f w)) with
        | Raise e => Raise e
        | Ok _ =>
            match key_path_error
                    (or_ k (source_value (text "SSH_KEY_PATH") f w)) with
            | Some e => Raise e
            | None =>
                Ok {| host := or_ h (source_value (text "SSH_HOST") f w);
                      user := or_ u (source_value (text "SSH_USER") f w);
                      password := or_ pw (source_value (text "SSH_PASSWORD") f w);
                      key_path :=
                        expanduser (load_env f w)
                          <$> or_ k (source_value (text "SSH_KEY_PATH") f w);
                      port := n;
                      _client := None |}
            end
        end
    end.
Proof.
  unfold __init__, resolve; simpl.
  rewrite !getenv_load_env, expand_if_truthy. reflexivity.
Qed.

Lemma env_port_source (f : option pystr) (w : World) :
  env_port (load_env f w) =
    match source_value (text "SSH_PORT") f w with
    | None => Ok 22
    | Some s =>
        match int s with
        | Some n => Ok n
        | None => Raise (ValueError_int s)
        end
    end.
Proof.
  unfold env_port, getenv_default.
  change (environ (load_env f w) !! text "SSH_PORT")
    with (getenv (load_env f w) (text "SSH_PORT")).
  rewrite getenv_load_env.
  destruct (source_value (text "SSH_PORT") f w); reflexivity.
Qed.

Lemma validate_not_int (a b c d : option pystr) (lit : pystr) :
  validate a b c d <> Raise (ValueError_int lit).
Proof.
  unfold validate.
  destruct (truthy a), (truthy b), (truthy c), (truthy d); simpl; discriminate.
Qed.

Lemma key_path_error_not_int (o : option pystr) (lit : pystr) :
  key_path_error o <> Some (ValueError_int lit).
Proof.
  destruct o as [[|c r]|]; try discriminate.
  unfold key_path_error, expanduser_error.
  destruct (c =? 126)%N; [|discriminate].
  destruct (fst (split_at_sep r)) as [|a name]; [discriminate|].
  unfold getpwnam_error.
  destruct (existsb _ _); [discriminate|].
  destruct (existsb _ _); discriminate.
Qed.

Lemma built_port (a b c d kp ho us pa ke : option pystr) (n : Z) :
  (forall obj,
     match validate a b c d with
     | Raise e => Raise e
     | Ok _ =>
         match key_path_error kp with
         | Some e => Raise e
         | None =>
             Ok {| host := ho; user := us; password := pa; key_path := ke;
                   port := n; _client := None |}
         end
     end = Ok obj -> port obj = n)
  /\ forall lit,
       match validate a b c d with
       | Raise e => Raise e
       | Ok _ =>
           match key_path_error kp with
           | Some e => Raise e
           | None =>
               Ok {| host := ho; user := us; password := pa; key_path := ke;
                     port := n; _client := None |}
           end
       end <> Raise (ValueError_int lit).
Proof.
  destruct (validate a b c d) as [x|e] eqn:Hv.
  - destruct (key_path_error kp) as [e|] eqn:Hk; split; try discriminate.
    + intros lit [= ->]. now apply key_path_error_not_int in Hk.
    + now intros obj [= <-].
  - split; [discriminate|].
    intros lit [= ->]. now apply validate_not_int in Hv.
Qed.


End Resolver.

(** C1, as stated, fails: with no override, [SSH_HOST=e] in the process
    environment and [SSH_HOST=f] in the settings file, the constructor takes
    [e], where the order override, file, environment gives [f]. *)
Lemma resolver_environment_before_file :
  exists (d : dotenv) (obj : SSHClient),
    settings_file None world_env_and_file = Some d
    /\ binding d (text "SSH_HOST") = Some (text "f")
    /\ environ world_env_and_file !! text "SSH_HOST" = Some (text "e")
    /\ snd (__init__ None None None None None None world_env_and_file) = Ok obj
    /\ host obj = Some (text "e")
    /\ host obj <> spec_first_non_empty None (Some (text "f")) (Some (text "e")).
Proof.
  eexists _, _. repeat split; try (vm_compute; reflexivity).
  vm_compute. discriminate.
Qed.

(** C1, amended: every field is resolved on its own, from the override
    argument when it is non-empty (non-zero for the port), else from the
    process environment variable when it is set, even to the empty string,
    else from the binding of the settings file; the key path is then
    expanded, and the port is the integer read from that text or from
    ["22"] when neither source has it. *)
Theorem resolution_order_per_field
    (h u pw k : option pystr) (p : option Z) (f : option pystr)
    (w : World) (obj : SSHClient) :
  snd (__init__ h u pw k p f w) = Ok obj ->
  host obj = or_ h (source_value (text "SSH_HOST") f w)
  /\ user obj = or_ u (source_value (text "SSH_USER") f w)
  /\ password obj = or_ pw (source_value (text "SSH_PASSWORD") f w)
  /\ key_path obj =
       expanduser (load_env f w) <$> or_ k (source_value (text "SSH_KEY_PATH") f w)
  /\ Some (port obj) =
       if truthy_int p then p
       else int (default (text "22") (source_value (text "SSH_PORT") f w)).
Proof.
  rewrite init_unfold.
  destruct (truthy_int p) eqn:Hp.
  - destruct (resolve_port_truthy p (load_env f w) Hp) as [n [-> ->]].
    destruct (validate _ _ _ _); [|discriminate].
    destruct (key_path_error _); [discriminate|].
    intros [= <-]; simpl. repeat split; reflexivity.
  - rewrite (resolve_port_falsy p _ Hp), env_port_source.
    destruct (source_value (text "SSH_PORT") f w) as [s|]; simpl.
    + destruct (int s) as [n|]; [|discriminate].
      destruct (validate _ _ _ _); [|discriminate].
    destruct (key_path_error _); [discriminate|].
      intros [= <-]; simpl. repeat split; reflexivity.
    + destruct (validate _ _ _ _); [|discriminate].
    destruct (key_path_error _); [discriminate|].
      intros [= <-]; simpl. repeat split; reflexivity.
Qed.

Lemma resolution_order_per_field_witness :
  snd (__init__ (Some (text "h")) None None None None None world_env_and_file)
    = Ok {| host := Some (text "h"); user := Some (text "u");
            password := Some (text "p"); key_path := None; port := 22;
            _client := None |}
  /\ Some (text "h")
       = or_ (Some (text "h"))
             (source_value (text "SSH_HOST") None world_env_and_file).
Proof.
  split; [vm_compute; reflexivity|].
  exact (proj1 (resolution_order_per_field
                  (Some (text "h")) None None None None None
                  world_env_and_file _ eq_refl)).
Defined.

(** C4, as stated, fails: loading the settings file stores its bindings in
    the process environment, so the environment after the constructor
    differs from the one before. *)
Lemma resolver_writes_environment :
  environ world_file_only !! text "SSH_HOST" = None
  /\ environ (fst (__init__ None None None None None None world_file_only))
       !! text "SSH_HOST" = Some (text "h")
  /\ environ (fst (__init__ None None None None None None world_file_only))
       <> environ world_file_only.
Proof.
  split; [vm_compute; reflexivity|].
  split; [vm_compute; reflexivity|].
  intros H.
  apply (f_equal (fun e : gmap pystr pystr => e !! text "SSH_HOST")) in H.
  vm_compute in H. discriminate.
Qed.

(** C4, amended: the constructor writes no file and leaves the working
    directory and the password database alone; in the process environment
    every variable set before keeps its value, and a variable that appears
    is a binding of the loaded settings file for a name that was unset. *)
Theorem resolver_frame
    (h u pw k : option pystr) (p : option Z) (f : option pystr) (w : World) :
  let w' := fst (__init__ h u pw k p f w) in
  files w' = files w
  /\ cwd w' = cwd w /\ pw_uid w' = pw_uid w /\ pw_nam w' = pw_nam w
  /\ environ w ⊆ environ w'
  /\ forall key v,
       environ w' !! key = Some v ->
       environ w !! key = Some v
       \/ (environ w !! key = None
           /\ exists d, settings_file f w = Some d /\ binding d key = Some v).
Proof.
  simpl. destruct (load_env_frame f w) as (Hf & Hc & Hu & Hn).
  repeat split; try assumption.
  - apply map_subseteq_spec. intros key v Hk.
    change (getenv (load_env f w) key = Some v).
    rewrite getenv_load_env. unfold source_value. now rewrite Hk.
  - intros key v Hk.
    change (getenv (load_env f w) key = Some v) in Hk.
    rewrite getenv_load_env in Hk. unfold source_value in Hk.
    destruct (environ w !! key) as [x|]; [now left|].
    destruct (settings_file f w) as [d|]; [|discriminate].
    right. split; [reflexivity|]. now exists d.
Qed.

(** C6, as stated, fails: [-5] is no unsigned integer, yet the constructor
    accepts it and the port is [-5]. *)
Lemma negative_port_accepted :
  spec_unsigned (text "-5") = false
  /\ source_value (text "SSH_PORT") None world_negative_port = Some (text "-5")
  /\ snd (__init__ (Some (text "h")) (Some (text "u")) (Some (text "p"))
            None None None world_negative_port)
     = Ok {| host := Some (text "h"); user := Some (text "u");
             password := Some (text "p"); key_path := None; port := -5;
             _client := None |}.
Proof. repeat split; vm_compute; reflexivity. Qed.

(** C6, amended: with no port argument (or [0]), the port is [22] when
    neither the environment nor the settings file has [SSH_PORT]; when one
    has it, the text is read by [int], which also takes a sign, surrounding
    white space and single underscores between digits: the port is the
    integer read, and text that [int] rejects makes the constructor raise
    its [ValueError], never fall back to [22]. *)
Theorem port_default_and_parse
    (h u pw k : option pystr) (p : option Z) (f : option pystr) (w : World) :
  truthy_int p = false ->
  match source_value (text "SSH_PORT") f w with
  | None =>
      (forall obj, snd (__init__ h u pw k p f w) = Ok obj -> port obj = 22)
      /\ forall lit, snd (__init__ h u pw k p f w) <> Raise (ValueError_int lit)
  | Some s =>
      match int s with
      | Some n =>
          (forall obj, snd (__init__ h u pw k p f w) = Ok obj -> port obj = n)
          /\ forall lit, snd (__init__ h u pw k p f w) <> Raise (ValueError_int lit)
      | None =>
          snd (__init__ h u pw k p f w) = Raise (ValueError_int s)
          /\ is_ValueError (ValueError_int s) = true
      end
  end.
Proof.
  intros Hp. rewrite init_unfold, (resolve_port_falsy p _ Hp), env_port_source.
  destruct (source_value (text "SSH_PORT") f w) as [s|].
  - destruct (int s) as [n|]; [|split; reflexivity].
    apply built_port.
  - apply built_port.
Qed.

Lemma port_default_and_parse_witness :
  truthy_int None = false
  /\ snd (__init__ (Some (text "h")) (Some (text "u")) (Some (text "p"))
            None None None world_bad_port)
     = Raise (ValueError_int (text "abc")).
Proof.
  split; [reflexivity|].
  exact (proj1 (port_default_and_parse
                  (Some (text "h")) (Some (text "u")) (Some (text "p"))
                  None None None world_bad_port eq_refl)).
Defined.

(** C7: once the fields are resolved (the port text, if any, was read as
    an integer), an empty host, an empty user, and the absence of both
    password and key path each make the constructor raise [ValueError],
    the script's configuration error, with a message of its own: the
    host's names [SSH_HOST], the user's names [SSH_USER], the credential's
    names [SSH_PASSWORD] and [SSH_KEY_PATH], none names another field's
    variable, and the three differ from one another. The checks run in
    this order, so the first missing field is the one named. *)
Theorem validation_errors_distinct
    (h u pw k : option pystr) (p : option Z) (f : option pystr)
    (w : World) (n : Z) :
  resolve_port p (load_env f w) = Ok n ->
  let rhost := or_ h (source_value (text "SSH_HOST") f w) in
  let ruser := or_ u (source_value (text "SSH_USER") f w) in
  let rpassword := or_ pw (source_value (text "SSH_PASSWORD") f w) in
  let rkey := or_ k (source_value (text "SSH_KEY_PATH") f w) in
  let host_message := text "SSH_HOST not set in .env or passed as argument" in
  let user_message := text "SSH_USER not set in .env or passed as argument" in
  let credential_message :=
    text "SSH_PASSWORD or SSH_KEY_PATH required in .env or as argument" in
  (truthy rhost = false ->
     snd (__init__ h u pw k p f w) = Raise (ValueError host_message))
  /\ (truthy rhost = true -> truthy ruser = false ->
        snd (__init__ h u pw k p f w) = Raise (ValueError user_message))
  /\ (truthy rhost = true -> truthy ruser = true ->
      truthy rpassword = false -> truthy rkey = false ->
        snd (__init__ h u pw k p f w) = Raise (ValueError credential_message))
  /\ host_message <> user_message
  /\ host_message <> credential_message
  /\ user_message <> credential_message
  /\ List.map (fun name => mentions (text name) host_message)
       ["SSH_HOST"; "SSH_USER"; "SSH_PASSWORD"; "SSH_KEY_PATH"]%string
     = [true; false; false; false]
  /\ List.map (fun name => mentions (text name) user_message)
       ["SSH_HOST"; "SSH_USER"; "SSH_PASSWORD"; "SSH_KEY_PATH"]%string
     = [false; true; false; false]
  /\ List.map (fun name => mentions (text name) credential_message)
       ["SSH_HOST"; "SSH_USER"; "SSH_PASSWORD"; "SSH_KEY_PATH"]%string
     = [false; false; true; true]
  /\ is_ValueError (ValueError host_message) = true
  /\ is_ValueError (ValueError user_message) = true
  /\ is_ValueError (ValueError credential_message) = true.
Proof.
  intros Hport. cbv zeta. rewrite init_unfold, Hport. unfold validate.
  split; [now intros ->|].
  split; [now intros -> ->|].
  split; [now intros -> -> -> ->|].
  repeat split; try (vm_compute; reflexivity);
    intros H; vm_compute in H; discriminate.
Qed.

Lemma validation_errors_distinct_witness :
  resolve_port None (load_env None world_empty) = Ok 22
  /\ snd (__init__ None (Some (text "u")) (Some (text "p")) None None None
            world_empty)
     = Raise (ValueError (text "SSH_HOST not set in .env or passed as argument"))
  /\ snd (__init__ (Some (text "h")) None (Some (text "p")) None None None
            world_empty)
     = Raise (ValueError (text "SSH_USER not set in .env or passed as argument"))
  /\ snd (__init__ (Some (text "h")) (Some (text "u")) None None None None
            world_empty)
     = Raise (ValueError
                (text "SSH_PASSWORD or SSH_KEY_PATH required in .env or as argument")).
Proof.
  split; [reflexivity|].
  split; [|split].
  - exact (proj1 (validation_errors_distinct
                    None (Some (text "u")) (Some (text "p")) None None None
                    world_empty 22 eq_refl) eq_refl).
  - exact (proj1 (proj2 (validation_errors_distinct
                    (Some (text "h")) None (Some (text "p")) None None None
                    world_empty 22 eq_refl)) eq_refl eq_refl).
  - exact (proj1 (proj2 (proj2 (validation_errors_distinct
                    (Some (text "h")) (Some (text "u")) None None None None
                    world_empty 22 eq_refl))) eq_refl eq_refl eq_refl eq_refl).
Defined.

Lemma first_env_cwd (w : World) (d : dotenv) :
  files w !! path_str (joinpath (cwd w) (text ".env")) = Some d ->
  settings_file None w = Some d.
Proof. intros H. unfold settings_file. simpl. now rewrite H. Qed.

Lemma validate_with_key (a b c d : option pystr) :
  truthy a = true -> truthy b = true -> truthy d = true ->
  validate a b c d = Ok tt.
Proof.
  intros Ha Hb Hd. unfold validate. rewrite Ha, Hb, Hd.
  now destruct (truthy c).
Qed.

Lemma expanduser_home (w : World) (home tail : pystr) :
  userhome w [] = Some home ->
  expanduser w (126%N :: 47%N :: tail) = rstrip_sep home ++ 47%N :: tail.
Proof.
  intros H. unfold expanduser.
  change (126 =? 126)%N with true. cbv iota.
  change (split_at_sep (47%N :: tail)) with (@nil N, 47%N :: tail).
  cbv iota beta. rewrite H.
  destruct (rstrip_sep home); reflexivity.
Qed.

Lemma lstrip_sep_split (s : pystr) : exists l, s = l ++ lstrip_sep s.
Proof.
  induction s as [|c r [l Hl]]; simpl.
  - now exists [].
  - destruct (c =? 47)%N.
    + exists (c :: l). simpl. congruence.
    + now exists [].
Qed.

Lemma rstrip_sep_prefix (s : pystr) : exists t, s = rstrip_sep s ++ t.
Proof.
  destruct (lstrip_sep_split (rev s)) as [l Hl].
  exists (rev l). unfold rstrip_sep.
  rewrite <- rev_app_distr, <- Hl. now rewrite rev_involutive.
Qed.

Lemma expansion_absolute (home rest suffix : pystr) :
  home = 47%N :: rest ->
  exists tail, rstrip_sep home ++ 47%N :: suffix = 47%N :: tail.
Proof.
  intros Hhome. destruct (rstrip_sep_prefix home) as [t Ht].
  destruct (rstrip_sep home) as [|c q].
  - now exists suffix.
  - rewrite Hhome in Ht. simpl in Ht. injection Ht as <- _.
    now exists (q ++ 47%N :: suffix).
Qed.

(** C8, as stated, fails: with the scenario's [.env] in the working
    directory and no argument, a process whose environment sets [SSH_HOST]
    gets that host, not [h]; and with a relative [HOME] the key path is
    expanded to a relative path. *)
Lemma scenario_depends_on_environment :
  files world_scenario_host_set
    !! path_str (joinpath (cwd world_scenario_host_set) (text ".env"))
  = Some scenario_file
  /\ snd (__init__ None None None None None None world_scenario_host_set)
     = Ok {| host := Some (text "other"); user := Some (text "u");
             password := None; key_path := Some (text "/home/me/.ssh/id_rsa");
             port := 22; _client := None |}
  /\ Some (text "other") <> Some (text "h")
  /\ files world_scenario_relative_home
       !! path_str (joinpath (cwd world_scenario_relative_home) (text ".env"))
     = Some scenario_file
  /\ snd (__init__ None None None None None None world_scenario_relative_home)
     = Ok {| host := Some (text "h"); user := Some (text "u");
             password := None; key_path := Some (text "rel/.ssh/id_rsa");
             port := 22; _client := None |}.
Proof.
  repeat split; try (vm_compute; reflexivity).
  intros H. vm_compute in H. discriminate.
Qed.

(** C8, amended: in a process whose working directory holds the scenario's
    [.env], whose environment sets none of [SSH_HOST], [SSH_USER],
    [SSH_KEY_PATH] and [SSH_PORT], and whose home directory is [home]
    ([$HOME], or the password-database entry when [HOME] is unset), the
    constructor called without arguments succeeds with host [h], user [u],
    port [22] and the key path [home] (less trailing slashes) followed by
    [/.ssh/id_rsa], which is an absolute path when [home] is one. *)
Theorem scenario_dotenv_in_cwd (w : World) (home : pystr) :
  files w !! path_str (joinpath (cwd w) (text ".env")) = Some scenario_file ->
  environ w !! text "SSH_HOST" = None ->
  environ w !! text "SSH_USER" = None ->
  environ w !! text "SSH_KEY_PATH" = None ->
  environ w !! text "SSH_PORT" = None ->
  userhome w [] = Some home ->
  exists obj,
    snd (__init__ None None None None None None w) = Ok obj
    /\ host obj = Some (text "h")
    /\ user obj = Some (text "u")
    /\ key_path obj = Some (rstrip_sep home ++ text "/.ssh/id_rsa")
    /\ port obj = 22
    /\ (forall rest, home = 47%N :: rest ->
        exists tail, key_path obj = Some (47%N :: tail)).
Proof.
  intros Hfile Hh Hu Hk Hp Hhome.
  pose proof (first_env_cwd w _ Hfile) as Hs.
  assert (Hhome' : userhome (load_env None w) [] = Some home).
  { unfold userhome in *.
    change (environ (load_env None w) !! text "HOME")
      with (getenv (load_env None w) (text "HOME")).
    rewrite getenv_load_env. unfold source_value. rewrite Hs.
    destruct (load_env_frame None w) as (_ & _ & -> & _).
    destruct (environ w !! text "HOME"); [exact Hhome|].
    exact Hhome. }
  rewrite init_unfold, (resolve_port_falsy None _ eq_refl), env_port_source.
  unfold source_value. rewrite Hh, Hu, Hk, Hp, Hs.
  change (binding scenario_file (text "SSH_HOST")) with (Some (text "h")).
  change (binding scenario_file (text "SSH_USER")) with (Some (text "u")).
  change (binding scenario_file (text "SSH_KEY_PATH"))
    with (Some (text "~/.ssh/id_rsa")).
  change (binding scenario_file (text "SSH_PORT")) with (@None pystr).
  cbv beta iota.
  rewrite validate_with_key by reflexivity.
  eexists. split; [reflexivity|].
  cbn [host user key_path port].
  assert (Hkey : expanduser (load_env None w)
                   <$> or_ None (Some (text "~/.ssh/id_rsa"))
                 = Some (rstrip_sep home ++ text "/.ssh/id_rsa")).
  { change (or_ None (Some (text "~/.ssh/id_rsa")))
      with (Some (126%N :: 47%N :: text ".ssh/id_rsa")).
    cbn [fmap option_fmap option_map].
    now rewrite (expanduser_home _ home). }
  rewrite Hkey. repeat split.
  intros rest Hrest.
  destruct (expansion_absolute home rest (text ".ssh/id_rsa") Hrest)
    as [tail Htail].
  exists tail. f_equal. exact Htail.
Qed.

Lemma scenario_dotenv_in_cwd_witness :
  exists obj,
    snd (__init__ None None None None None None world_scenario) = Ok obj
    /\ host obj = Some (text "h")
    /\ user obj = Some (text "u")
    /\ key_path obj = Some (text "/home/me/.ssh/id_rsa")
    /\ port obj = 22
    /\ (forall rest, text "/home/me" = 47%N :: rest ->
        exists tail, key_path obj = Some (47%N :: tail)).
Proof.
  exact (scenario_dotenv_in_cwd world_scenario (text "/home/me")
           eq_refl eq_refl eq_refl eq_refl eq_refl eq_refl).
Defined.

(** ** The session relay *)

Section Relay.

Variable net : Remote.

Lemma connect_kwargs_with_client (c : option ParamikoClient) (s : SSHClient) :
  connect_kwargs (with_client c s) = connect_kwargs s.
Proof. reflexivity. Qed.

(** [connect] stores a fresh client, asks the remote side once, and
    leaves the client connected only when the remote side accepts. *)
Lemma connect_outcome (p : Process) :
  connect net p =
    match accepts net (connect_kwargs (self p)) with
    | Some e =>
        (Raise e,
         {| self := with_client (Some {| transport_active := false |}) (self p);
            trace := trace p ++ [Connect (connect_kwargs (self p))] |})
    | None =>
        (Ok tt,
         {| self := with_client connected (self p);
            trace := trace p ++ [Connect (connect_kwargs (self p))] |})
    end.
Proof.
  unfold connect, mbind, M_bind, bind, set_client, get_self, emit; simpl.
  rewrite connect_kwargs_with_client.
  destruct (accepts net (connect_kwargs (self p))); reflexivity.
Qed.

Lemma ensure_client_none (p : Process) :
  _client (self p) = None -> ensure_client net p = connect net p.
Proof.
  intros H. unfold ensure_client, mbind, M_bind, bind, get_self; simpl.
  now rewrite H.
Qed.

Lemma ensure_client_some (p : Process) (c : ParamikoClient) :
  _client (self p) = Some c -> ensure_client net p = (Ok tt, p).
Proof.
  intros H. unfold ensure_client, mbind, M_bind, bind, get_self; simpl.
  now rewrite H.
Qed.

Lemma exec_and_read_connected (command : pystr) (timeout : Z) (p : Process) :
  _client (self p) = connected ->
  exec_and_read net command timeout p =
    (command_result net command timeout,
     {| self := self p; trace := trace p ++ [ExecCommand command timeout] |}).
Proof.
  intros H.
  unfold exec_and_read, with_transport, mbind, M_bind, bind, get_self, emit,
    command_result.
  simpl. rewrite H. simpl.
  destruct (remote_exec net command timeout) as [[[output|e1] [errors|e2]]|e];
    simpl; try reflexivity.
  destruct errors; reflexivity.
Qed.

(** With a connected client, [run] issues the command and returns what
    the streams give. *)
Lemma run_connected (command : pystr) (timeout : Z) (p : Process) :
  _client (self p) = connected ->
  run net command timeout p =
    (command_result net command timeout,
     {| self := self p; trace := trace p ++ [ExecCommand command timeout] |}).
Proof.
  intros H. unfold run, mbind, M_bind, bind.
  rewrite (ensure_client_some p _ H).
  now apply exec_and_read_connected.
Qed.

(** With no client, [run] connects first. *)
Lemma run_unconnected (command : pystr) (timeout : Z) (p : Process) :
  _client (self p) = None ->
  run net command timeout p =
    match accepts net (connect_kwargs (self p)) with
    | Some e =>
        (Raise e,
         {| self := with_client (Some {| transport_active := false |}) (self p);
            trace := trace p ++ [Connect (connect_kwargs (self p))] |})
    | None =>
        (command_result net command timeout,
         {| self := with_client connected (self p);
            trace := trace p ++ [Connect (connect_kwargs (self p));
                                 ExecCommand command timeout] |})
    end.
Proof.
  intros H. unfold run, mbind, M_bind, bind.
  rewrite (ensure_client_none p H), connect_outcome.
  destruct (accepts net (connect_kwargs (self p))) as [e|]; [reflexivity|].
  rewrite exec_and_read_connected by reflexivity.
  simpl. now rewrite <- app_assoc.
Qed.

Lemma sent_app (a b : list effect) : sent (a ++ b) = sent a ++ sent b.
Proof. apply omap_app. Qed.

Lemma print_all_outcome (chunks : list pystr) (p : Process) :
  print_all chunks p =
    (Ok tt, {| self := self p; trace := trace p ++ List.map Print chunks |}).
Proof.
  revert p. induction chunks as [|d r IH]; intros p; simpl.
  - rewrite app_nil_r. now destruct p.
  - unfold mbind, M_bind, bind, emit. rewrite IH. simpl.
    now rewrite <- app_assoc.
Qed.

Lemma sent_prints (chunks : list pystr) : sent (List.map Print chunks) = [].
Proof. induction chunks; simpl; auto. Qed.

(** A turn that neither types [exit] nor interrupts forwards the line
    typed, if any, as it is, and the loop goes on. *)
Lemma relay_turn_goes_on (t : tick) (rest : list tick) (p : Process) :
  types_exit t = false -> interrupted t = false ->
  exists p1,
    relay_loop (t :: rest) p = relay_loop rest p1
    /\ self p1 = self p
    /\ (exists more, trace p1 = trace p ++ more)
    /\ sent (trace p1) = sent (trace p) ++ option_list (typed_line t).
Proof.
  destruct t as [data ev]. unfold types_exit, interrupted, typed_line. simpl.
  intros Hexit Hint.
  unfold mbind, M_bind, bind.
  set (p0 := snd (match data with
                  | Some d => emit (Print d)
                  | None => ret tt
                  end p)).
  assert (H0 : match data with
               | Some d => emit (Print d)
               | None => ret tt
               end p = (Ok tt, p0)) by (subst p0; now destruct data).
  assert (Hself : self p0 = self p) by (subst p0; now destruct data).
  assert (Htr : exists m, trace p0 = trace p ++ m /\ sent m = []).
  { subst p0. destruct data as [d|]; simpl.
    - now exists [Print d].
    - exists []. now rewrite app_nil_r. }
  destruct Htr as (m & Htr & Hm).
  rewrite H0.
  destruct ev as [|cmd|cmd replies| |]; try discriminate.
  - exists p0. repeat split; auto.
    + now exists m.
    + rewrite Htr, sent_app, Hm. simpl. now rewrite !app_nil_r.
  - rewrite Hexit. unfold emit at 1. simpl.
    eexists. split; [reflexivity|]. simpl. repeat split; auto.
    + exists (m ++ [Send cmd]). now rewrite Htr, <- app_assoc.
    + rewrite Htr, !sent_app, Hm. simpl. now rewrite app_nil_r.
  - rewrite is_exit_newline in Hexit. rewrite Hexit.
    unfold emit at 1. simpl. rewrite print_all_outcome. simpl.
    eexists. split; [reflexivity|]. simpl. repeat split; auto.
    + exists (m ++ [Send (cmd ++ newline)] ++ List.map Print replies).
      now rewrite Htr, <- !app_assoc.
    + rewrite Htr, !sent_app, Hm, sent_prints. simpl.
      now rewrite !app_nil_r.
Qed.

(** A turn that types [exit] ends the loop and forwards nothing. *)
Lemma relay_turn_exit (t : tick) (rest : list tick) (p : Process) :
  types_exit t = true ->
  exists p1,
    relay_loop (t :: rest) p = (Ok Returned, p1)
    /\ self p1 = self p
    /\ (exists more, trace p1 = trace p ++ more)
    /\ sent (trace p1) = sent (trace p).
Proof.
  destruct t as [data ev]. unfold types_exit, typed_line. simpl.
  intros Hexit.
  unfold mbind, M_bind, bind.
  destruct ev as [|cmd|cmd replies| |]; try discriminate;
    try rewrite is_exit_newline in Hexit.
  - destruct data as [d|]; simpl; rewrite Hexit; eexists;
      (split; [reflexivity|]); simpl; repeat split.
    + now exists [Print d].
    + rewrite sent_app. simpl. now rewrite app_nil_r.
    + exists []. now rewrite app_nil_r.
  - destruct data as [d|]; simpl; rewrite Hexit; eexists;
      (split; [reflexivity|]); simpl; repeat split.
    + now exists [Print d].
    + rewrite sent_app. simpl. now rewrite app_nil_r.
    + exists []. now rewrite app_nil_r.
Qed.

(** The loop only adds to the trace and leaves the object alone. *)
Lemma relay_loop_extends (turns : list tick) (p : Process) :
  self (snd (relay_loop turns p)) = self p
  /\ exists more, trace (snd (relay_loop turns p)) = trace p ++ more.
Proof.
  revert p. induction turns as [|t rest IH]; intros p.
  - simpl. split; [reflexivity|]. exists []. now rewrite app_nil_r.
  - destruct (types_exit t) eqn:He.
    + destruct (relay_turn_exit t rest p He) as (p1 & -> & Hs & Ht & _).
      now split.
    + destruct (interrupted t) eqn:Hi.
      * destruct t as [data ev]. unfold interrupted in Hi. simpl in Hi.
        simpl. unfold mbind, M_bind, bind.
        destruct ev; try discriminate; destruct data as [d|]; simpl;
          (split; [reflexivity|]); eexists;
          rewrite <- ?app_assoc; try reflexivity.
        now rewrite app_nil_r.
      * destruct (relay_turn_goes_on t rest p He Hi)
          as (p1 & -> & Hs & [m Ht] & _).
        destruct (IH p1) as (Hs1 & m1 & Ht1).
        split; [congruence|].
        exists (m ++ m1). now rewrite Ht1, Ht, <- app_assoc.
Qed.

End Relay.

(** C2, as stated, fails: [run] also removes white space at the start of
    the output; trailing-only trimming would keep the blank of [" a"]. *)
Lemma run_strips_leading_space :
  fst (run remote_leading_blank (text "echo") 30
         {| self := client_hup; trace := [] |}) = Ok (text "a")
  /\ spec_trim_trailing (text " a") = text " a"
  /\ text "a" <> spec_trim_trailing (text " a").
Proof.
  split; [vm_compute; reflexivity|].
  split; [vm_compute; reflexivity|].
  vm_compute. discriminate.
Qed.

(** C2, amended: when a session is open, or none is and the remote side
    accepts the connection, [run] returns the standard-output text if the
    standard-error text is empty, and otherwise the output, a newline and
    the error text, in both cases with the white space at the start and at
    the end removed, and nothing else removed. *)
Theorem run_returns_stripped_streams
    (net : Remote) (command : pystr) (timeout : Z) (p : Process)
    (output errors : pystr) :
  _client (self p) = connected
  \/ (_client (self p) = None /\ accepts net (connect_kwargs (self p)) = None) ->
  remote_exec net command timeout = Ok (Ok output, Ok errors) ->
  let merged :=
    match errors with
    | [] => output
    | _ :: _ => output ++ newline ++ errors
    end in
  fst (run net command timeout p) = Ok (strip merged)
  /\ exists before after,
       merged = before ++ strip merged ++ after
       /\ forallb isspace before = true /\ forallb isspace after = true
       /\ lstrip (strip merged) = strip merged
       /\ rstrip (strip merged) = strip merged.
Proof.
  intros Hc Hexec merged. split; [|apply strip_split].
  assert (Hr : command_result net command timeout = Ok (strip merged)).
  { unfold command_result. rewrite Hexec. subst merged. now destruct errors. }
  destruct Hc as [Hc|[Hc Ha]].
  - now rewrite run_connected.
  - now rewrite run_unconnected, Ha.
Qed.

Lemma run_returns_stripped_streams_witness :
  fst (run remote_both_streams (text "ls") 30
         {| self := client_hup; trace := [] |})
  = Ok (text "out " ++ newline ++ text "warn").
Proof.
  exact (proj1 (run_returns_stripped_streams remote_both_streams (text "ls") 30
                  {| self := client_hup; trace := [] |}
                  (text " out ") (text "warn ")
                  (or_intror (conj eq_refl eq_refl)) eq_refl)).
Defined.

Lemma truthy_expanduser (w : World) (o : option pystr) :
  truthy (expanduser w <$> o) = truthy o.
Proof.
  destruct o as [[|c r]|]; try reflexivity.
  simpl. unfold expanduser.
  destruct (c =? 126)%N; [|reflexivity].
  destruct (split_at_sep r) as [name tail].
  destruct (userhome w name) as [home|]; [|reflexivity].
  destruct (rstrip_sep home ++ tail); reflexivity.
Qed.

Lemma validate_ok (a b c d : option pystr) (x : unit) :
  validate a b c d = Ok x ->
  truthy a = true /\ truthy b = true /\ (truthy c = true \/ truthy d = true).
Proof.
  unfold validate.
  destruct (truthy a), (truthy b), (truthy c), (truthy d); simpl;
    try discriminate; auto.
Qed.

Lemma connect_kwargs_credential (s : SSHClient) :
  if truthy (key_path s)
  then connect_kwargs s !! text "key_filename" = Some (Str (key_path s))
       /\ connect_kwargs s !! text "password" = None
  else connect_kwargs s !! text "password" = Some (Str (password s))
       /\ connect_kwargs s !! text "key_filename" = None.
Proof.
  unfold connect_kwargs.
  destruct (truthy (key_path s)); split; vm_compute; reflexivity.
Qed.

(** C3, as stated, fails: a constructor given both a password and a key
    path keeps both attributes, so after resolution not exactly one of the
    two is present. *)
Lemma both_credentials_kept :
  exists obj,
    snd (__init__ (Some (text "h")) (Some (text "u")) (Some (text "p"))
           (Some (text "k")) None None world_empty) = Ok obj
    /\ password obj = Some (text "p")
    /\ key_path obj = Some (text "k")
    /\ xorb (truthy (password obj)) (truthy (key_path obj)) = false.
Proof. eexists. repeat split; vm_compute; reflexivity. Qed.

(** C3, amended: an object the constructor returns holds a password or a
    key path, and keeps both when both resolve; [connect] hands paramiko
    exactly one of them: the key path, as [key_filename] and without any
    [password], whenever a key path is present, and the password
    otherwise. *)
Theorem key_path_priority_at_connect
    (h u pw k : option pystr) (p : option Z) (f : option pystr) (w : World)
    (obj : SSHClient) (net : Remote) (tr : list effect) :
  snd (__init__ h u pw k p f w) = Ok obj ->
  (truthy (password obj) = true \/ truthy (key_path obj) = true)
  /\ trace (snd (connect net {| self := obj; trace := tr |}))
     = tr ++ [Connect (connect_kwargs obj)]
  /\ (if truthy (key_path obj)
      then connect_kwargs obj !! text "key_filename" = Some (Str (key_path obj))
           /\ connect_kwargs obj !! text "password" = None
      else connect_kwargs obj !! text "password" = Some (Str (password obj))
           /\ connect_kwargs obj !! text "key_filename" = None
           /\ truthy (password obj) = true).
Proof.
  rewrite init_unfold.
  destruct (resolve_port p (load_env f w)) as [n|]; [|discriminate].
  destruct (validate _ _ _ _) as [x|] eqn:Hv; [|discriminate].
    destruct (key_path_error _); [discriminate|].
  apply validate_ok in Hv. destruct Hv as (_ & _ & Hcred).
  intros [= <-].
  assert (Hone : truthy (or_ pw (source_value (text "SSH_PASSWORD") f w)) = true
                 \/ truthy (expanduser (load_env f w)
                              <$> or_ k (source_value (text "SSH_KEY_PATH") f w))
                    = true)
    by now rewrite truthy_expanduser.
  split; [exact Hone|]. split.
  - rewrite connect_outcome. simpl.
    now destruct (accepts net _).
  - match goal with |- context [connect_kwargs ?s] =>
      pose proof (connect_kwargs_credential s) as Hk end.
    simpl key_path in *. simpl password in *.
    destruct (truthy (expanduser (load_env f w) <$> _)) eqn:Hkey.
    + exact Hk.
    + destruct Hk as [Hk1 Hk2]. repeat split; try assumption.
      destruct Hone as [Hp|Hp]; [exact Hp|discriminate].
Qed.

Lemma key_path_priority_at_connect_witness :
  let obj :=
    {| host := Some (text "h"); user := Some (text "u");
       password := Some (text "p"); key_path := Some (text "k"); port := 22;
       _client := None |} in
  snd (__init__ (Some (text "h")) (Some (text "u")) (Some (text "p"))
         (Some (text "k")) None None world_empty) = Ok obj
  /\ connect_kwargs obj !! text "key_filename" = Some (Str (Some (text "k")))
  /\ connect_kwargs obj !! text "password" = None.
Proof.
  split; [reflexivity|].
  exact (proj2 (proj2 (key_path_priority_at_connect
                  (Some (text "h")) (Some (text "u")) (Some (text "p"))
                  (Some (text "k")) None None world_empty _
                  remote_both_streams [] eq_refl))).
Defined.

Example exit_spellings :
  is_exit (text "exit" ++ newline) = true
  /\ is_exit (text "Exit" ++ newline) = true
  /\ is_exit (text "EXIT" ++ newline) = true
  /\ is_exit (text " exit " ++ newline) = true
  /\ is_exit (text "exit now" ++ newline) = false
  /\ is_exit newline = false.
Proof. repeat split; vm_compute; reflexivity. Qed.

(** C5: while no turn interrupts the loop, every typed line that does not
    read [exit] (trimmed, letter case ignored) is forwarded to the channel
    as typed, newline included, in order; the first line that reads [exit]
    ends the loop, and neither that line nor anything after it is
    forwarded. *)
Theorem exit_line_ends_relay
    (pre post : list tick) (t : tick) (p : Process) :
  forallb (fun x => negb (types_exit x) && negb (interrupted x)) pre = true ->
  (exists p1,
     relay_loop pre p = (Ok StillRunning, p1)
     /\ sent (trace p1) = sent (trace p) ++ omap typed_line pre)
  /\ (types_exit t = true ->
      exists p2,
        relay_loop (pre ++ t :: post) p = (Ok Returned, p2)
        /\ sent (trace p2) = sent (trace p) ++ omap typed_line pre).
Proof.
  revert p. induction pre as [|x rest IH]; intros p Hpre.
  - split.
    + exists p. split; [reflexivity|]. simpl. now rewrite app_nil_r.
    + intros He. destruct (relay_turn_exit t post p He) as (p2 & Hr & _ & _ & Hs).
      exists p2. split; [exact Hr|]. simpl. now rewrite app_nil_r.
  - simpl in Hpre. apply andb_prop in Hpre. destruct Hpre as [Hx Hrest].
    apply andb_prop in Hx. destruct Hx as [Hx1 Hx2].
    apply negb_true_iff in Hx1, Hx2.
    destruct (relay_turn_goes_on x rest p Hx1 Hx2) as (p1 & Hr & _ & _ & Hs).
    destruct (relay_turn_goes_on x (rest ++ t :: post) p Hx1 Hx2)
      as (p1' & Hr' & _ & _ & Hs').
    assert (Hline : omap typed_line (x :: rest)
                    = option_list (typed_line x) ++ omap typed_line rest).
    { simpl. now destruct (typed_line x). }
    rewrite Hline, app_assoc.
    split.
    + destruct (proj1 (IH p1 Hrest)) as (q & Hq & Hsq).
      exists q. rewrite Hr, Hq, Hsq, Hs. now split.
    + intros He.
      destruct (proj2 (IH p1' Hrest) He) as (q & Hq & Hsq).
      exists q. simpl app. rewrite Hr', Hq, Hsq, Hs'. now split.
Qed.

Lemma exit_line_ends_relay_witness :
  exists p2,
    relay_loop
      ([turn (ReadLine (text "ls" ++ newline)); turn (Input (text "pwd") [])]
         ++ turn (ReadLine (text " Exit " ++ newline))
         :: [turn (ReadLine (text "id" ++ newline))])
      {| self := client_hup; trace := [] |} = (Ok Returned, p2)
    /\ sent (trace p2) = [text "ls" ++ newline; text "pwd" ++ newline].
Proof.
  exact (proj2 (exit_line_ends_relay
                  [turn (ReadLine (text "ls" ++ newline));
                   turn (Input (text "pwd") [])]
                  [turn (ReadLine (text "id" ++ newline))]
                  (turn (ReadLine (text " Exit " ++ newline)))
                  {| self := client_hup; trace := [] |} eq_refl) eq_refl).
Defined.

(** C9: [close] never raises and leaves no client; a second [close] does
    nothing more than the first, neither to the object nor to paramiko;
    on an object that has no client, closed or never opened, it does
    nothing at all. *)
Theorem close_idempotent (p : Process) (s : SSHClient) (tr : list effect) :
  fst (close p) = Ok tt
  /\ _client (self (snd (close p))) = None
  /\ (close ;; close) p = close p
  /\ close {| self := with_client None s; trace := tr |}
     = (Ok tt, {| self := with_client None s; trace := tr |}).
Proof.
  unfold close, mbind, M_bind, bind, get_self, emit, set_client, ret; simpl.
  destruct (_client (self p)) as [c|] eqn:Hc; simpl; rewrite ?Hc; auto.
Qed.

(** C10: called on an object without a client, as after the constructor
    or after [close], [run] and [interactive_shell] first call [connect]
    with the object's credentials. If the remote side accepts, the command
    or the shell request is issued next, on the connected client; if it
    refuses, the operation ends with the exception of [connect] and issues
    nothing else. *)
Theorem operations_connect_first
    (net : Remote) (p : Process) (command : pystr) (timeout : Z)
    (turns : list tick) :
  _client (self p) = None ->
  match accepts net (connect_kwargs (self p)) with
  | None =>
      (exists p1,
         run net command timeout p = (command_result net command timeout, p1)
         /\ trace p1 = trace p ++ [Connect (connect_kwargs (self p));
                                   ExecCommand command timeout]
         /\ _client (self p1) = connected)
      /\ (exists r p2 more,
            interactive_shell net turns p = (r, p2)
            /\ trace p2 = trace p ++ [Connect (connect_kwargs (self p));
                                      InvokeShell] ++ more
            /\ _client (self p2) = connected)
  | Some e =>
      (exists p1,
         run net command timeout p = (Raise e, p1)
         /\ trace p1 = trace p ++ [Connect (connect_kwargs (self p))])
      /\ (exists p2,
            interactive_shell net turns p = (Raise e, p2)
            /\ trace p2 = trace p ++ [Connect (connect_kwargs (self p))])
  end.
Proof.
  intros Hnone.
  pose proof (run_unconnected net command timeout p Hnone) as Hrun.
  unfold interactive_shell, mbind, M_bind, bind.
  rewrite (ensure_client_none net p Hnone), connect_outcome.
  destruct (accepts net (connect_kwargs (self p))) as [e|].
  - split; eexists; (split; [eassumption || reflexivity|reflexivity]).
  - split.
    + eexists. split; [exact Hrun|]. now split.
    + unfold with_transport, mbind, M_bind, bind, get_self, emit. simpl.
      match goal with |- context [relay_loop turns ?q] =>
        destruct (relay_loop_extends turns q) as (Hs & more & Ht);
        destruct (relay_loop turns q) as [r p2] end.
      simpl in Hs, Ht.
      exists r, p2. eexists. split; [reflexivity|].
      split; [|now rewrite Hs].
      rewrite Ht, <- !app_assoc. simpl. reflexivity.
Qed.

Lemma operations_connect_first_witness :
  exists p1,
    run remote_both_streams (text "ls") 30
      (snd (close {| self := with_client connected client_hup; trace := [] |}))
    = (command_result remote_both_streams (text "ls") 30, p1)
    /\ trace p1 = [Close; Connect (connect_kwargs client_hup);
                   ExecCommand (text "ls") 30]
    /\ _client (self p1) = connected.
Proof.
  exact (proj1 (operations_connect_first remote_both_streams
                  (snd (close {| self := with_client connected client_hup;
                                 trace := [] |}))
                  (text "ls") 30 [] eq_refl)).
Defined.

(** ** Further properties of the configuration resolver *)

Lemma first_env_descending (w : World) (dir : nat -> list pystr)
    (k n : nat) (d : dotenv) :
  (n < k)%nat ->
  files w !! path_str (joinpath (dir n) (text ".env")) = Some d ->
  (forall m, (n < m < k)%nat ->
             files w !! path_str (joinpath (dir m) (text ".env")) = None) ->
  first_env w (List.map dir (rev (seq 0 k))) = Some d.
Proof.
  induction k as [|k IH]; intros Hn Hd Hnone; [lia|].
  rewrite seq_S, rev_unit. simpl.
  destruct (decide (n = k)) as [->|Hne].
  - now rewrite Hd.
  - rewrite (Hnone k) by lia. apply IH; [lia|exact Hd|].
    intros m Hm. apply Hnone. lia.
Qed.

Lemma search_dirs_descending (p : list pystr) :
  p :: parents p = List.map (fun n => take n p) (rev (seq 0 (S (length p)))).
Proof.
  unfold parents. rewrite seq_S, rev_unit. simpl.
  now rewrite firstn_all.
Qed.

(** X1: the directory search takes the [.env] of the nearest directory that
    has one, counting from the working directory up to the root: a [.env]
    [n] components deep is the settings file when no deeper ancestor of the
    working directory, nor the working directory itself, has one. *)
Theorem nearest_env_is_loaded (w : World) (n : nat) (d : dotenv) :
  (n <= length (cwd w))%nat ->
  files w !! path_str (joinpath (take n (cwd w)) (text ".env")) = Some d ->
  (forall m, (n < m <= length (cwd w))%nat ->
     files w !! path_str (joinpath (take m (cwd w)) (text ".env")) = None) ->
  settings_file None w = Some d
  /\ load_env None w
     = set_environ (set_as_environment_variables d (environ w)) w.
Proof.
  intros Hn Hd Hnone.
  assert (Hs : settings_file None w = Some d).
  { unfold settings_file. rewrite search_dirs_descending.
    apply (first_env_descending w (fun k => take k (cwd w)) _ n d);
      [lia|exact Hd|].
    intros m Hm. apply Hnone. lia. }
  split; [exact Hs|]. now rewrite load_env_settings_file, Hs.
Qed.

Lemma nearest_env_is_loaded_witness :
  settings_file None world_nested
  = Some (<[text "SSH_HOST" := Some (text "near")]> ∅).
Proof.
  refine (proj1 (nearest_env_is_loaded world_nested 1 _ _ eq_refl _)).
  - simpl. lia.
  - intros m Hm. simpl in Hm.
    assert (Hcases : m = 2%nat \/ m = 3%nat) by lia.
    destruct Hcases as [-> | ->]; vm_compute; reflexivity.
Defined.

(** X2: a non-empty [env_file] switches the directory search off. When it
    names no file, nothing is loaded and that alone is no error: the
    process environment is left as it was, whatever [.env] files lie in
    the working directory and above, and the fields resolve from the
    arguments and the environment only. An empty [env_file] is the same
    as none. *)
Theorem missing_env_file_loads_nothing
    (h u pw k : option pystr) (p : option Z) (path : pystr) (w : World) :
  path <> [] ->
  files w !! path = None ->
  __init__ h u pw k p (Some path) w = (w, resolve h u pw k p w)
  /\ (forall key, source_value key (Some path) w = environ w !! key)
  /\ __init__ h u pw k p (Some []) w = __init__ h u pw k p None w.
Proof.
  intros Hpath Hf.
  assert (Hload : load_env (Some path) w = w).
  { transitivity (load_dotenv path w).
    - destruct path; [congruence|reflexivity].
    - unfold load_dotenv. now rewrite Hf. }
  assert (Hfile : settings_file (Some path) w = None).
  { rewrite <- Hf. destruct path; [congruence|reflexivity]. }
  split; [|split].
  - unfold __init__. now rewrite Hload.
  - intros key. unfold source_value. rewrite Hfile.
    now destruct (environ w !! key).
  - reflexivity.
Qed.

Lemma missing_env_file_loads_nothing_witness :
  __init__ None None None None None (Some (text "/etc/none.env"))
    world_file_only
  = (world_file_only, Raise (ValueError msg_host)).
Proof.
  refine (proj1 (missing_env_file_loads_nothing
                   None None None None None (text "/etc/none.env")
                   world_file_only _ eq_refl)).
  discriminate.
Defined.


(** A key path [~name] whose name holds a NUL makes the constructor
    raise, though host, user and key path all resolve. *)
Example constructor_refuses_nul_in_user_name :
  snd (__init__ (Some (text "h")) (Some (text "u")) None
         (Some (126%N :: 97%N :: 0%N :: 98%N :: text "/x")) None None world_empty)
  = Raise (ValueError (text "embedded null byte")).
Proof. reflexivity. Qed.

(** X4: a port argument other than [0] is taken as it is, whatever its sign
    or size, and [SSH_PORT] is then not read at all: text there that is no
    number does not make the constructor fail. A port argument of [0] is
    the same as none. *)
Theorem port_argument_skips_environment
    (h u pw k : option pystr) (n : Z) (f : option pystr) (w : World) :
  n <> 0 ->
  (forall obj, snd (__init__ h u pw k (Some n) f w) = Ok obj -> port obj = n)
  /\ (forall lit, snd (__init__ h u pw k (Some n) f w) <> Raise (ValueError_int lit))
  /\ __init__ h u pw k (Some 0) f w = __init__ h u pw k None f w.
Proof.
  intros Hn. rewrite init_unfold.
  assert (Hp : resolve_port (Some n) (load_env f w) = Ok n).
  { simpl. now destruct (Z.eqb_spec n 0). }
  rewrite Hp. split; [|split; [|reflexivity]]; apply built_port.
Qed.

Lemma port_argument_skips_environment_witness :
  snd (__init__ (Some (text "h")) (Some (text "u")) (Some (text "p")) None
         (Some (-7)) None world_bad_port)
  = Ok {| host := Some (text "h"); user := Some (text "u");
          password := Some (text "p"); key_path := None; port := -7;
          _client := None |}
  /\ forall obj,
       snd (__init__ (Some (text "h")) (Some (text "u")) (Some (text "p")) None
              (Some (-7)) None world_bad_port) = Ok obj -> port obj = -7.
Proof.
  split; [reflexivity|].
  refine (proj1 (port_argument_skips_environment
                   (Some (text "h")) (Some (text "u")) (Some (text "p")) None
                   (-7) None world_bad_port _)).
  discriminate.
Defined.

(** X5: an environment variable that is set to the empty string still hides
    the binding of the settings file: with no host argument and
    [SSH_HOST] empty in the environment the constructor raises, and names
    the host as missing once the port has resolved, whatever the file
    binds to [SSH_HOST]. *)
Theorem empty_variable_hides_file
    (h u pw k : option pystr) (p : option Z) (f : option pystr) (w : World) :
  truthy h = false ->
  environ w !! text "SSH_HOST" = Some (text "") ->
  exists e,
    snd (__init__ h u pw k p f w) = Raise e
    /\ is_ValueError e = true
    /\ forall n, resolve_port p (load_env f w) = Ok n -> e = ValueError msg_host.
Proof.
  intros Hh Henv. rewrite init_unfold.
  assert (Hhost : truthy (or_ h (source_value (text "SSH_HOST") f w)) = false).
  { unfold or_, source_value. now rewrite Hh, Henv. }
  unfold validate. rewrite Hhost. simpl.
  destruct (resolve_port p (load_env f w)) as [n|e] eqn:Hp.
  - exists (ValueError msg_host). repeat split.
  - exists e. repeat split.
    + revert Hp. unfold resolve_port, env_port.
      destruct p as [[| |]|]; simpl; try discriminate;
        destruct (int _); try discriminate; now intros [= <-].
    + discriminate.
Qed.

Lemma empty_variable_hides_file_witness :
  binding (<[text "SSH_HOST" := Some (text "f")]> ∅) (text "SSH_HOST")
    = Some (text "f")
  /\ exists e,
       snd (__init__ None (Some (text "u")) (Some (text "p")) None None None
              world_empty_host) = Raise e
       /\ is_ValueError e = true
       /\ forall n, resolve_port None (load_env None world_empty_host) = Ok n ->
                    e = ValueError msg_host.
Proof.
  split; [reflexivity|].
  exact (empty_variable_hides_file None (Some (text "u")) (Some (text "p"))
           None None None world_empty_host eq_refl eq_refl).
Defined.

(** X6: the home directory used to expand the key path is read after the
    settings file is loaded: when [HOME] is not in the environment and the
    file binds it, a key path [~/...] is expanded under the file's [HOME]
    and the password database is not consulted. *)
Theorem home_taken_from_settings_file
    (h u pw k : option pystr) (p : option Z) (f : option pystr) (w : World)
    (d : dotenv) (home tail : pystr) (obj : SSHClient) :
  environ w !! text "HOME" = None ->
  settings_file f w = Some d ->
  binding d (text "HOME") = Some home ->
  or_ k (source_value (text "SSH_KEY_PATH") f w) = Some (126%N :: 47%N :: tail) ->
  snd (__init__ h u pw k p f w) = Ok obj ->
  key_path obj = Some (rstrip_sep home ++ 47%N :: tail).
Proof.
  intros Henv Hs Hb Hk. rewrite init_unfold, Hk.
  destruct (resolve_port p (load_env f w)); [|discriminate].
  destruct (validate _ _ _ _); [|discriminate].
    destruct (key_path_error _); [discriminate|].
  intros [= <-]. simpl. f_equal.
  apply expanduser_home. unfold userhome.
  change (environ (load_env f w) !! text "HOME")
    with (getenv (load_env f w) (text "HOME")).
  rewrite getenv_load_env. unfold source_value.
  now rewrite Henv, Hs, Hb.
Qed.

Lemma home_taken_from_settings_file_witness :
  exists obj,
    snd (__init__ None None None None None None world_home_in_file) = Ok obj
    /\ key_path obj = Some (text "/opt/keys/id").
Proof.
  eexists. split; [reflexivity|].
  exact (home_taken_from_settings_file None None None None None None
           world_home_in_file _ (text "/opt/keys") (text "id") _
           eq_refl eq_refl eq_refl eq_refl eq_refl).
Defined.

Lemma to_decimal_ascii (c : N) :
  (48 <=? c)%N && (c <=? 57)%N = true ->
  to_decimal c = Some (Z.of_N (c - 48)).
Proof.
  intros H. apply andb_prop in H. destruct H as [H1 H2].
  apply N.leb_le in H1, H2.
  unfold to_decimal, decimal_zeros. cbn [List.find].
  assert (Ht : ((48 <=? c) && (c <? 48 + 10))%N = true).
  { apply andb_true_intro. split; [now apply N.leb_le|].
    apply N.ltb_lt. lia. }
  now rewrite Ht.
Qed.

Lemma scan_digits_ascii (s : pystr) (acc : Z) :
  forallb (fun c => (48 <=? c) && (c <=? 57))%N s = true ->
  scan_digits acc false s
  = Some (fold_left (fun a c => 10 * a + Z.of_N (c - 48)) s acc, []).
Proof.
  revert acc. induction s as [|c r IH]; intros acc H; simpl; [reflexivity|].
  simpl in H. apply andb_prop in H. destruct H as [Hc Hr].
  rewrite (to_decimal_ascii c Hc).
  apply andb_prop in Hc. destruct Hc as [H1 H2]. apply N.leb_le in H1, H2.
  assert (Hu : (c =? 95)%N = false) by (apply N.eqb_neq; lia).
  rewrite Hu. now apply IH.
Qed.

Lemma decimal_value_nonneg (s : pystr) (acc : Z) :
  0 <= acc -> 0 <= fold_left (fun a c => 10 * a + Z.of_N (c - 48)) s acc.
Proof.
  revert acc. induction s as [|c r IH]; intros acc H; simpl; [exact H|].
  apply IH. lia.
Qed.

Lemma skip_space_digit (c : N) (r : pystr) :
  (48 <=? c)%N && (c <=? 57)%N = true -> skip_space (c :: r) = c :: r.
Proof.
  intros H. apply andb_prop in H. destruct H as [H1 H2].
  apply N.leb_le in H1, H2. simpl. unfold int_space.
  assert (E1 : (c <=? 13)%N = false) by (apply N.leb_gt; lia).
  assert (E2 : (c =? 32)%N = false) by (apply N.eqb_neq; lia).
  assert (E3 : (128 <=? c)%N = false) by (apply N.leb_gt; lia).
  now rewrite E1, E2, E3, andb_false_r.
Qed.

Lemma digit_count_ascii (s : pystr) (n : N) :
  forallb (fun c => (48 <=? c) && (c <=? 57))%N s = true ->
  fold_left
    (fun n c => match to_decimal c with Some _ => (n + 1)%N | None => n end)
    s n
  = (n + N.of_nat (length s))%N.
Proof.
  revert n. induction s as [|c r IH]; intros n H.
  - simpl. lia.
  - simpl in H. apply andb_prop in H. destruct H as [Hc Hr].
    cbn [fold_left length]. rewrite (to_decimal_ascii c Hc), (IH _ Hr). lia.
Qed.

(** [int] reads every text of one to 4300 ASCII digits as its decimal
    value. *)
Lemma int_ascii_digits (s : pystr) :
  spec_unsigned s = true -> (length s <= 4300)%nat ->
  int s = Some (decimal_value s).
Proof.
  destruct s as [|c r]; [discriminate|].
  unfold spec_unsigned. intros H Hlen.
  pose proof (scan_digits_ascii (c :: r) 0 H) as Hscan.
  assert (Hcount : (max_str_digits <? digit_count (c :: r))%N = false).
  { unfold digit_count. rewrite (digit_count_ascii (c :: r) 0 H).
    apply N.ltb_ge. unfold max_str_digits. lia. }
  simpl in H. apply andb_prop in H. destruct H as [Hc _].
  pose proof (to_decimal_ascii c Hc) as Hd.
  pose proof (skip_space_digit c r Hc) as Hskip.
  apply andb_prop in Hc. destruct Hc as [H1 H2]. apply N.leb_le in H1, H2.
  assert (Hcases : (c = 48 \/ c = 49 \/ c = 50 \/ c = 51 \/ c = 52 \/ c = 53
                    \/ c = 54 \/ c = 55 \/ c = 56 \/ c = 57)%N) by lia.
  unfold int, decimal_value. rewrite Hskip. clear Hskip H1 H2 Hlen.
  repeat (destruct Hcases as [Hcase | Hcases]); subst c;
    cbv beta iota zeta; rewrite Hd, Hscan; cbn [skip_space];
    rewrite Hcount; now rewrite Z.mul_1_l.
Qed.

(** X7: with no port argument, an [SSH_PORT] of at most 4300 ASCII digits
    (the most [int] reads) is never refused and the port is its decimal
    value, far beyond the range of ports: the constructor checks no
    range. *)
Theorem numeric_port_is_read
    (h u pw k : option pystr) (p : option Z) (f : option pystr) (w : World)
    (s : pystr) :
  truthy_int p = false ->
  source_value (text "SSH_PORT") f w = Some s ->
  spec_unsigned s = true ->
  (length s <= 4300)%nat ->
  (forall obj, snd (__init__ h u pw k p f w) = Ok obj ->
     port obj = decimal_value s /\ 0 <= port obj)
  /\ forall lit, snd (__init__ h u pw k p f w) <> Raise (ValueError_int lit).
Proof.
  intros Hp Hs Hnum Hlen.
  rewrite init_unfold, (resolve_port_falsy p _ Hp), env_port_source, Hs,
    (int_ascii_digits s Hnum Hlen).
  match goal with |- (forall obj, ?T = _ -> _) /\ _ =>
    assert (Hb : (forall obj, T = Ok obj -> port obj = decimal_value s)
                 /\ forall lit, T <> Raise (ValueError_int lit))
      by apply built_port end.
  destruct Hb as [H1 H2]. split; [|exact H2].
  intros obj Ho. rewrite (H1 obj Ho). split; [reflexivity|].
  now apply decimal_value_nonneg.
Qed.

Lemma numeric_port_is_read_witness :
  snd (__init__ (Some (text "h")) (Some (text "u")) (Some (text "p")) None
         None None world_large_port)
  = Ok {| host := Some (text "h"); user := Some (text "u");
          password := Some (text "p"); key_path := None; port := 70000;
          _client := None |}
  /\ forall obj,
       snd (__init__ (Some (text "h")) (Some (text "u")) (Some (text "p")) None
              None None world_large_port) = Ok obj ->
       port obj = decimal_value (text "70000") /\ 0 <= port obj.
Proof.
  split; [reflexivity|].
  exact (proj1 (numeric_port_is_read
                  (Some (text "h")) (Some (text "u")) (Some (text "p")) None
                  None None world_large_port (text "70000")
                  eq_refl eq_refl eq_refl ltac:(simpl; lia))).
Defined.

(** ** Further properties of the session relay *)

(** X8: [connect] stores the new client before it connects, so a refused
    connection leaves a client in [_client]: a later [run] does not
    connect again but calls [exec_command] on that client, which raises,
    paramiko's [SSHException] when the refused connection left a transport
    and [AttributeError] when it left none, until [close] clears the
    client. *)
Theorem refused_connect_is_not_retried
    (net : Remote) (p : Process) (e : exn) (command : pystr) (timeout : Z) :
  accepts net (connect_kwargs (self p)) = Some e ->
  fst (connect net p) = Raise e
  /\ _client (self (snd (connect net p))) <> None
  /\ run net command timeout (snd (connect net p))
     = (Raise (if leaves_transport net (connect_kwargs (self p))
               then SSHException else AttributeError),
        {| self := self (snd (connect net p));
           trace := trace p ++ [Connect (connect_kwargs (self p));
                                ExecCommand command timeout] |})
  /\ _client (self (snd (close (snd (connect net p))))) = None.
Proof.
  intros Ha. rewrite connect_outcome, Ha. simpl.
  repeat split; try discriminate.
  unfold run, exec_and_read, ensure_client, with_transport, mbind, M_bind,
    bind, get_self, emit, raise. simpl.
  rewrite connect_kwargs_with_client.
  destruct (leaves_transport net (connect_kwargs (self p)));
    now rewrite <- app_assoc.
Qed.

Lemma refused_connect_is_not_retried_witness :
  fst (connect remote_refusing {| self := client_hup; trace := [] |})
  = Raise AuthenticationException
  /\ run remote_refusing (text "ls") 30
       (snd (connect remote_refusing {| self := client_hup; trace := [] |}))
     = (Raise SSHException,
        {| self := with_client (Some {| transport_active := false |}) client_hup;
           trace := [Connect (connect_kwargs client_hup);
                     ExecCommand (text "ls") 30] |}).
Proof.
  pose proof (refused_connect_is_not_retried remote_refusing
                {| self := client_hup; trace := [] |} AuthenticationException
                (text "ls") 30 eq_refl) as (H1 & _ & H3 & _).
  exact (conj H1 H3).
Defined.

(** X9: two calls of [run] on a new object share one connection: the first
    connects, the second reuses the client, also when the first command
    failed. *)
Theorem runs_share_one_connection
    (net : Remote) (p : Process)
    (command1 command2 : pystr) (timeout1 timeout2 : Z) :
  _client (self p) = None ->
  accepts net (connect_kwargs (self p)) = None ->
  let first := run net command1 timeout1 p in
  let second := run net command2 timeout2 (snd first) in
  fst first = command_result net command1 timeout1
  /\ fst second = command_result net command2 timeout2
  /\ trace (snd second)
     = trace p ++ [Connect (connect_kwargs (self p));
                   ExecCommand command1 timeout1;
                   ExecCommand command2 timeout2]
  /\ _client (self (snd second)) = connected.
Proof.
  intros Hnone Ha. cbv zeta.
  rewrite (run_unconnected net command1 timeout1 p Hnone), Ha. simpl.
  rewrite run_connected by reflexivity. simpl.
  repeat split. now rewrite <- app_assoc.
Qed.

Lemma runs_share_one_connection_witness :
  trace (snd (run remote_both_streams (text "id") 30
                (snd (run remote_both_streams (text "ls") 30
                        {| self := client_hup; trace := [] |}))))
  = [Connect (connect_kwargs client_hup);
     ExecCommand (text "ls") 30; ExecCommand (text "id") 30].
Proof.
  exact (proj1 (proj2 (proj2 (runs_share_one_connection remote_both_streams
                  {| self := client_hup; trace := [] |}
                  (text "ls") (text "id") 30 30 eq_refl eq_refl)))).
Defined.

Lemma lstrip_nil_iff (s : pystr) :
  lstrip s = [] <-> forallb isspace s = true.
Proof.
  induction s as [|c r IH]; simpl; [tauto|].
  destruct (isspace c); simpl; [exact IH|].
  split; discriminate.
Qed.

Lemma strip_nil_iff (s : pystr) :
  strip s = [] <-> forallb isspace s = true.
Proof.
  rewrite <- lstrip_nil_iff. unfold strip, rstrip. split.
  - intros H. apply (f_equal (@rev N)) in H. rewrite rev_involutive in H.
    simpl in H. destruct (lstrip s) as [|c r] eqn:E; [reflexivity|].
    exfalso.
    assert (Hc : isspace c = false) by exact (lstrip_head s c r E).
    destruct (lstrip_split (rev (c :: r))) as (l & Hl & Hsp).
    rewrite H, app_nil_r in Hl.
    rewrite <- Hl in Hsp. rewrite forallb_forall in Hsp.
    specialize (Hsp c). rewrite Hsp in Hc; [discriminate|].
    apply in_rev. rewrite rev_involutive. now left.
  - now intros ->.
Qed.

(** X10: with a session available, [run] returns the empty text exactly when
    all it received is white space: an empty output with no error text, or
    white space only in the output, the newline and the error text. *)
Theorem run_returns_empty_iff_blank
    (net : Remote) (command : pystr) (timeout : Z) (p : Process)
    (output errors : pystr) :
  _client (self p) = connected
  \/ (_client (self p) = None /\ accepts net (connect_kwargs (self p)) = None) ->
  remote_exec net command timeout = Ok (Ok output, Ok errors) ->
  (fst (run net command timeout p) = Ok []
   <-> forallb isspace output = true /\ forallb isspace errors = true).
Proof.
  intros Hc Hexec.
  assert (Hr : fst (run net command timeout p) = command_result net command timeout).
  { destruct Hc as [Hc|[Hc Ha]].
    - now rewrite run_connected.
    - now rewrite run_unconnected, Ha. }
  rewrite Hr. unfold command_result. rewrite Hexec.
  destruct errors as [|c r].
  - split.
    + intros [= H]. split; [now apply strip_nil_iff|reflexivity].
    + intros [H _]. f_equal. now apply strip_nil_iff.
  - split.
    + intros [= H]. apply strip_nil_iff in H.
      rewrite !forallb_app in H. apply andb_prop in H. destruct H as [H1 H2].
      apply andb_prop in H2. now destruct H2.
    + intros [H1 H2]. f_equal. apply strip_nil_iff.
      rewrite !forallb_app, H1, H2. reflexivity.
Qed.

Lemma run_returns_empty_iff_blank_witness :
  fst (run remote_blank (text "true") 30 {| self := client_hup; trace := [] |})
  = Ok [].
Proof.
  apply (proj2 (run_returns_empty_iff_blank remote_blank (text "true") 30
                  {| self := client_hup; trace := [] |}
                  (text "  " ++ newline) newline
                  (or_intror (conj eq_refl eq_refl)) eq_refl)).
  split; reflexivity.
Defined.

(** X11: when the command cannot be started or a stream cannot be read and
    decoded, [run] raises that exception, the one of the output before the
    one of the error text, and keeps the session: the client stays
    connected and is not closed. *)
Theorem run_failure_keeps_session
    (net : Remote) (command : pystr) (timeout : Z) (p : Process) :
  _client (self p) = connected ->
  (forall e, remote_exec net command timeout = Raise e ->
             fst (run net command timeout p) = Raise e)
  /\ (forall e err, remote_exec net command timeout = Ok (Raise e, err) ->
                    fst (run net command timeout p) = Raise e)
  /\ (forall e output, remote_exec net command timeout = Ok (Ok output, Raise e) ->
                       fst (run net command timeout p) = Raise e)
  /\ self (snd (run net command timeout p)) = self p
  /\ trace (snd (run net command timeout p))
     = trace p ++ [ExecCommand command timeout].
Proof.
  intros Hc. rewrite run_connected by exact Hc. simpl.
  unfold command_result.
  repeat split; intros; match goal with H : _ = _ |- _ => now rewrite H end.
Qed.

Lemma run_failure_keeps_session_witness :
  fst (run remote_undecodable (text "cat") 30
         {| self := with_client connected client_hup; trace := [] |})
  = Raise UnicodeDecodeError.
Proof.
  exact (proj1 (proj2 (run_failure_keeps_session remote_undecodable (text "cat")
                  30 {| self := with_client connected client_hup; trace := [] |}
                  eq_refl)) UnicodeDecodeError (Ok (text "warn")) eq_refl).
Defined.

Lemma goes_on_split (t : tick) :
  goes_on t = true -> types_exit t = false /\ interrupted t = false.
Proof.
  unfold goes_on. intros H. apply andb_prop in H. destruct H as [H1 H2].
  now apply negb_true_iff in H1, H2.
Qed.

Lemma relay_turn_effects (t : tick) (rest : list tick) (p : Process) :
  goes_on t = true ->
  relay_loop (t :: rest) p
  = relay_loop rest {| self := self p; trace := trace p ++ turn_effects t |}.
Proof.
  intros H. apply goes_on_split in H. destruct H as [Hexit Hint].
  destruct t as [data ev]. destruct p as [s tr].
  unfold types_exit, interrupted, typed_line, turn_effects in *.
  simpl in *. unfold mbind, M_bind, bind.
  destruct ev as [|cmd|cmd replies| |]; try discriminate.
  - destruct data as [d|]; simpl; [reflexivity|]. now rewrite app_nil_r.
  - destruct data as [d|]; simpl; rewrite Hexit; unfold emit; simpl;
      now rewrite <- ?app_assoc.
  - rewrite is_exit_newline in Hexit.
    destruct data as [d|]; simpl; rewrite Hexit, print_all_outcome; simpl;
      now rewrite <- ?app_assoc.
Qed.

Lemma relay_prefix (pre rest : list tick) (p : Process) :
  forallb goes_on pre = true ->
  relay_loop (pre ++ rest) p
  = relay_loop rest
      {| self := self p;
         trace := trace p ++ List.concat (List.map turn_effects pre) |}.
Proof.
  revert p. induction pre as [|t pre IH]; intros p H.
  - simpl. rewrite app_nil_r. now destruct p.
  - simpl in H. apply andb_prop in H. destruct H as [Ht Hpre].
    change ((t :: pre) ++ rest) with (t :: (pre ++ rest)).
    rewrite (relay_turn_effects t _ p Ht), (IH _ Hpre). simpl.
    now rewrite <- app_assoc.
Qed.

Lemma printed_app (a b : list effect) : printed (a ++ b) = printed a ++ printed b.
Proof. apply omap_app. Qed.

Lemma printed_prints (chunks : list pystr) :
  printed (List.map Print chunks) = chunks.
Proof. induction chunks as [|c r IH]; simpl; [reflexivity|]. now f_equal. Qed.

Lemma printed_turn_effects (t : tick) : printed (turn_effects t) = turn_output t.
Proof.
  destruct t as [data ev]. unfold turn_effects, turn_output. simpl.
  rewrite printed_app. f_equal; [now destruct data|].
  destruct ev; simpl; try reflexivity.
  apply printed_prints.
Qed.

Lemma printed_turns (turns : list tick) :
  printed (List.concat (List.map turn_effects turns))
  = List.concat (List.map turn_output turns).
Proof.
  induction turns as [|t r IH]; simpl; [reflexivity|].
  now rewrite printed_app, printed_turn_effects, IH.
Qed.

(** X14: while no turn types [exit] or interrupts, the loop keeps running and
    does nothing but the turns' effects in order: in each turn the remote
    output that was ready is written first, then the line is sent, then
    the drained replies are written. Every chunk received is written to
    the terminal as it is, in the order received, and nothing else is
    written. *)
Theorem relay_shows_remote_output (turns : list tick) (p : Process) :
  forallb goes_on turns = true ->
  relay_loop turns p
  = (Ok StillRunning,
     {| self := self p;
        trace := trace p ++ List.concat (List.map turn_effects turns) |})
  /\ printed (trace (snd (relay_loop turns p)))
     = printed (trace p) ++ List.concat (List.map turn_output turns).
Proof.
  intros H.
  pose proof (relay_prefix turns [] p H) as E. rewrite app_nil_r in E.
  rewrite E. simpl. split; [reflexivity|].
  now rewrite printed_app, printed_turns.
Qed.

Lemma relay_shows_remote_output_witness :
  printed (trace (snd (relay_loop
     [{| remote_data := Some (text "$ "); stdin := ReadLine (text "ls" ++ newline) |};
      {| remote_data := None; stdin := Input (text "pwd") [text "/srv"; text "$ "] |}]
     {| self := client_hup; trace := [] |})))
  = [text "$ "; text "/srv"; text "$ "].
Proof.
  exact (proj2 (relay_shows_remote_output
     [{| remote_data := Some (text "$ "); stdin := ReadLine (text "ls" ++ newline) |};
      {| remote_data := None; stdin := Input (text "pwd") [text "/srv"; text "$ "] |}]
     {| self := client_hup; trace := [] |} eq_refl)).
Defined.

(** X15: an interrupt ends the loop without an exception: the output that was
    ready in that turn is still written, then the notice [Disconnected],
    and the later turns are not run, so nothing more is sent. *)
Theorem interrupt_ends_relay
    (pre post : list tick) (t : tick) (p : Process) :
  forallb goes_on pre = true ->
  stdin t = KeyboardInterrupt ->
  relay_loop (pre ++ t :: post) p
  = (Ok Returned,
     {| self := self p;
        trace := trace p ++ List.concat (List.map turn_effects pre)
                 ++ List.map Print (option_list (remote_data t))
                 ++ [Print (newline ++ text "Disconnected" ++ newline)] |})
  /\ sent (trace (snd (relay_loop (pre ++ t :: post) p)))
     = sent (trace p) ++ sent (List.concat (List.map turn_effects pre)).
Proof.
  intros Hpre Ht. rewrite (relay_prefix pre (t :: post) p Hpre).
  destruct t as [data ev]. simpl in Ht. subst ev.
  simpl. unfold mbind, M_bind, bind.
  destruct data as [d|]; simpl; rewrite <- ?app_assoc; simpl;
    (split; [reflexivity|]);
    rewrite !sent_app; simpl; now rewrite app_nil_r.
Qed.

Lemma interrupt_ends_relay_witness :
  relay_loop ([turn (ReadLine (text "ls" ++ newline))]
                ++ turn KeyboardInterrupt
                :: [turn (ReadLine (text "id" ++ newline))])
    {| self := client_hup; trace := [] |}
  = (Ok Returned,
     {| self := client_hup;
        trace := [Send (text "ls" ++ newline);
                  Print (newline ++ text "Disconnected" ++ newline)] |}).
Proof.
  exact (proj1 (interrupt_ends_relay
                  [turn (ReadLine (text "ls" ++ newline))]
                  [turn (ReadLine (text "id" ++ newline))]
                  (turn KeyboardInterrupt)
                  {| self := client_hup; trace := [] |} eq_refl eq_refl)).
Defined.

(** X16: on the path without [select], the end of the keyboard input is not
    handled: [EOFError] leaves the loop and [interactive_shell], the later
    turns are not run and no notice is written. *)
Theorem end_of_input_raises
    (net : Remote) (pre post : list tick) (t : tick) (p : Process) :
  forallb goes_on pre = true ->
  stdin t = InputEOF ->
  relay_loop (pre ++ t :: post) p
  = (Raise EOFError,
     {| self := self p;
        trace := trace p ++ List.concat (List.map turn_effects pre)
                 ++ List.map Print (option_list (remote_data t)) |})
  /\ (_client (self p) = connected ->
      fst (interactive_shell net (pre ++ t :: post) p) = Raise EOFError).
Proof.
  intros Hpre Ht.
  assert (Hloop : forall q,
    relay_loop (pre ++ t :: post) q
    = (Raise EOFError,
       {| self := self q;
          trace := trace q ++ List.concat (List.map turn_effects pre)
                   ++ List.map Print (option_list (remote_data t)) |})).
  { intros q. rewrite (relay_prefix pre (t :: post) q Hpre).
    destruct t as [data ev]. simpl in Ht. subst ev.
    simpl. unfold mbind, M_bind, bind.
    destruct data as [d|]; simpl; rewrite <- ?app_assoc; simpl;
      [reflexivity|]. now rewrite app_nil_r. }
  split; [apply Hloop|].
  intros Hc. unfold interactive_shell, mbind, M_bind, bind.
  rewrite (ensure_client_some net p _ Hc).
  unfold with_transport, mbind, M_bind, bind, get_self, emit. simpl.
  rewrite Hc. simpl. now rewrite Hloop.
Qed.

Lemma end_of_input_raises_witness :
  fst (interactive_shell remote_both_streams
         ([turn (Input (text "ls") [])] ++ turn InputEOF :: [])
         {| self := with_client connected client_hup; trace := [] |})
  = Raise EOFError.
Proof.
  exact (proj2 (end_of_input_raises remote_both_streams
                  [turn (Input (text "ls") [])] [] (turn InputEOF)
                  {| self := with_client connected client_hup; trace := [] |}
                  eq_refl eq_refl) eq_refl).
Defined.

Lemma close_outcome (p : Process) :
  close p =
    match _client (self p) with
    | Some _ =>
        (Ok tt, {| self := with_client None (self p); trace := trace p ++ [Close] |})
    | None => (Ok tt, p)
    end.
Proof.
  unfold close, mbind, M_bind, bind, get_self, emit, set_client, ret; simpl.
  now destruct (_client (self p)).
Qed.

(** X12: the block [with ssh:] connects once on entry and, when its body ends,
    by returning or by raising, closes the client the body left, as the
    last call, and hands on the body's result or exception: no session
    outlives the block. A body that already dropped the client is left
    alone. *)
Theorem with_block_closes
    (net : Remote) (body : M shell_status) (p : Process)
    (r : result shell_status) (p2 : Process) :
  accepts net (connect_kwargs (self p)) = None ->
  body {| self := with_client connected (self p);
          trace := trace p ++ [Connect (connect_kwargs (self p))] |} = (r, p2) ->
  r <> Ok StillRunning ->
  fst (with_ssh net body p) = r
  /\ _client (self (snd (with_ssh net body p))) = None
  /\ trace (snd (with_ssh net body p))
     = trace p2 ++ match _client (self p2) with
                   | Some _ => [Close]
                   | None => []
                   end.
Proof.
  intros Ha Hbody Hr. unfold with_ssh, __enter__, __exit__.
  rewrite connect_outcome, Ha, Hbody, close_outcome.
  destruct r as [[|]|e]; [congruence| |];
    destruct (_client (self p2)) eqn:Hc; simpl;
    rewrite ?app_nil_r; auto.
Qed.

Lemma with_block_closes_witness :
  fst (with_ssh remote_undecodable
         (command_body remote_undecodable [text "ssh_connect.py"; text "cat"])
         {| self := client_hup; trace := [] |})
  = Raise UnicodeDecodeError
  /\ _client (self (snd (with_ssh remote_undecodable
         (command_body remote_undecodable [text "ssh_connect.py"; text "cat"])
         {| self := client_hup; trace := [] |}))) = None
  /\ trace (snd (with_ssh remote_undecodable
         (command_body remote_undecodable [text "ssh_connect.py"; text "cat"])
         {| self := client_hup; trace := [] |}))
     = [Connect (connect_kwargs client_hup); ExecCommand (text "cat") 30; Close].
Proof.
  refine (with_block_closes remote_undecodable
            (command_body remote_undecodable [text "ssh_connect.py"; text "cat"])
            {| self := client_hup; trace := [] |}
            (Raise UnicodeDecodeError)
            {| self := with_client connected client_hup;
               trace := [Connect (connect_kwargs client_hup);
                         ExecCommand (text "cat") 30] |}
            eq_refl eq_refl _).
  discriminate.
Defined.

(** X13: when the connection is refused on entry, the body of [with ssh:] does
    not run and [__exit__] is not called: the exception of [connect] is
    all that happens, nothing is closed, and the unconnected client stays
    in [_client]. *)
Theorem with_block_refused
    (net : Remote) (body : M shell_status) (p : Process) (e : exn) :
  accepts net (connect_kwargs (self p)) = Some e ->
  with_ssh net body p
  = (Raise e,
     {| self := with_client (Some {| transport_active := false |}) (self p);
        trace := trace p ++ [Connect (connect_kwargs (self p))] |}).
Proof.
  intros Ha. unfold with_ssh, __enter__. now rewrite connect_outcome, Ha.
Qed.

Lemma with_block_refused_witness :
  with_ssh remote_refusing (interactive_shell remote_refusing [])
    {| self := client_hup; trace := [] |}
  = (Raise AuthenticationException,
     {| self := with_client (Some {| transport_active := false |}) client_hup;
        trace := [Connect (connect_kwargs client_hup)] |}).
Proof.
  exact (with_block_refused remote_refusing
           (interactive_shell remote_refusing [])
           {| self := client_hup; trace := [] |} AuthenticationException
           eq_refl).
Defined.

Lemma lower_char_cases (c : N) :
  (lower_char c = [c + 32] /\ 65 <= c <= 90)%N
  \/ (lower_char c = [107%N] /\ c = 8490%N)
  \/ (lower_char c = [105%N; 775%N] /\ c = 304%N)
  \/ (lower_char c = [c] /\ ~ (65 <= c <= 90)%N).
Proof.
  unfold lower_char.
  destruct (N.leb_spec 65 c), (N.leb_spec c 90); simpl;
    try (left; split; [reflexivity|lia]);
    (destruct (N.eqb_spec c 8490);
     [right; left; now split|];
     destruct (N.eqb_spec c 304);
     [right; right; left; now split|];
     right; right; right; split; [reflexivity|lia]).
Qed.

Lemma lower_nil (s : pystr) : lower s = [] -> s = [].
Proof.
  destruct s as [|c r]; [reflexivity|]. unfold lower. simpl.
  destruct (lower_char_cases c) as [[E _]|[[E _]|[[E _]|[E _]]]];
    rewrite E; discriminate.
Qed.

Lemma lower_cons_letter (small : N) (c : N) (r rest : pystr) :
  (97 <= small <= 122)%N -> small <> 105%N -> small <> 107%N ->
  lower (c :: r) = small :: rest ->
  letter small (small - 32) c /\ lower r = rest.
Proof.
  intros Hs Hi Hk. unfold lower. simpl. fold (lower r).
  destruct (lower_char_cases c) as [[E H]|[[E H]|[[E H]|[E H]]]];
    rewrite E; simpl; intros Hl; inversion Hl; subst; unfold letter;
    try (split; [lia|reflexivity]); try lia.
Qed.

Lemma lower_cons_i (c : N) (r rest : pystr) :
  rest <> 775%N :: List.tl rest ->
  lower (c :: r) = 105%N :: rest ->
  letter 105 73 c /\ lower r = rest.
Proof.
  intros Hrest. unfold lower. simpl. fold (lower r).
  destruct (lower_char_cases c) as [[E H]|[[E H]|[[E H]|[E H]]]];
    rewrite E; simpl; intros Hl; inversion Hl; subst; unfold letter;
    try (split; [lia|reflexivity]); try lia.
  exfalso. now apply Hrest.
Qed.

(** X17: the lines that end the interactive session are exactly those that,
    once the white space at both ends is removed, spell [exit] with each
    letter in either case: sixteen spellings, and no other character,
    such as U+0130 or a letter from another script, stands in for one. *)
Theorem exit_lines_characterised (cmd : pystr) :
  is_exit cmd = true
  <-> exists a b c d,
        strip cmd = [a; b; c; d]
        /\ letter 101 69 a /\ letter 120 88 b
        /\ letter 105 73 c /\ letter 116 84 d.
Proof.
  unfold is_exit. rewrite bool_decide_eq_true.
  change (text "exit") with [101%N; 120%N; 105%N; 116%N].
  split.
  - intros H. destruct (strip cmd) as [|a [|b [|c [|d rest]]]];
      try (vm_compute in H; discriminate).
    + apply lower_cons_letter in H; [|lia|lia|lia]. destruct H as [_ H].
      vm_compute in H. discriminate.
    + apply lower_cons_letter in H; [|lia|lia|lia]. destruct H as [_ H].
      apply lower_cons_letter in H; [|lia|lia|lia]. destruct H as [_ H].
      vm_compute in H. discriminate.
    + apply lower_cons_letter in H; [|lia|lia|lia]. destruct H as [_ H].
      apply lower_cons_letter in H; [|lia|lia|lia]. destruct H as [_ H].
      apply lower_cons_i in H; [|discriminate]. destruct H as [_ H].
      vm_compute in H. discriminate.
    + apply lower_cons_letter in H; [|lia|lia|lia]. destruct H as [Ha H].
      apply lower_cons_letter in H; [|lia|lia|lia]. destruct H as [Hb H].
      apply lower_cons_i in H; [|discriminate]. destruct H as [Hc H].
      apply lower_cons_letter in H; [|lia|lia|lia]. destruct H as [Hd H].
      apply lower_nil in H. subst rest.
      exists a, b, c, d. auto.
  - intros (a & b & c & d & -> & Ha & Hb & Hc & Hd).
    destruct Ha as [-> | ->], Hb as [-> | ->], Hc as [-> | ->],
      Hd as [-> | ->]; reflexivity.
Qed.

(** ** Properties of the command line *)





Lemma main_with_object
    (describe : exn -> pystr) (argv : list pystr) (net : Remote)
    (turns : list tick) (w : World) (ssh : SSHClient) :
  snd (__init__ None None None None None None w) = Ok ssh ->
  main describe argv net turns w
  = match with_ssh net
            (if (1 <? length argv)%nat then command_body net argv
             else interactive_shell net turns)
            {| self := ssh; trace := [] |} with
    | (Ok Returned, p) => (load_env None w, trace p, Completed)
    | (Ok StillRunning, p) => (load_env None w, trace p, Looping)
    | (Raise e, p) =>
        (load_env None w, trace p ++ fst (handle describe e),
         snd (handle describe e))
    end.
Proof.
  intros H. unfold main, __init__ in *. cbv zeta in *. cbn [snd] in H.
  now rewrite H.
Qed.

Lemma with_ssh_accepted (net : Remote) (body : M shell_status) (p : Process) :
  accepts net (connect_kwargs (self p)) = None ->
  with_ssh net body p
  = match body {| self := with_client connected (self p);
                  trace := trace p ++ [Connect (connect_kwargs (self p))] |} with
    | (Ok StillRunning, p2) => (Ok StillRunning, p2)
    | (r, p2) => (r, snd (close p2))
    end.
Proof.
  intros Ha. unfold with_ssh, __enter__, __exit__.
  rewrite connect_outcome, Ha.
  destruct (body _) as [[[|]|e] p2]; try reflexivity;
    rewrite close_outcome; now destruct (_client (self p2)).
Qed.

Lemma command_body_connected (net : Remote) (argv : list pystr) (p : Process) :
  _client (self p) = connected ->
  command_body net argv p
  = match command_result net (join (text " ") (tail argv)) 30 with
    | Ok output =>
        (Ok Returned,
         {| self := self p;
            trace := trace p ++ [ExecCommand (join (text " ") (tail argv)) 30;
                                 Print (output ++ newline)] |})
    | Raise e =>
        (Raise e,
         {| self := self p;
            trace := trace p ++ [ExecCommand (join (text " ") (tail argv)) 30] |})
    end.
Proof.
  intros Hc. unfold command_body, mbind, M_bind, bind.
  rewrite run_connected by exact Hc.
  destruct (command_result _ _ _); [|reflexivity].
  unfold emit, ret. simpl. now rewrite <- app_assoc.
Qed.

Lemma main_command_outcome
    (describe : exn -> pystr) (argv : list pystr) (net : Remote)
    (turns : list tick) (w : World) (ssh : SSHClient) :
  snd (__init__ None None None None None None w) = Ok ssh ->
  (1 < length argv)%nat ->
  accepts net (connect_kwargs ssh) = None ->
  main describe argv net turns w
  = match command_result net (join (text " ") (tail argv)) 30 with
    | Ok output =>
        (load_env None w,
         [Connect (connect_kwargs ssh);
          ExecCommand (join (text " ") (tail argv)) 30;
          Print (output ++ newline); Close],
         Completed)
    | Raise e =>
        (load_env None w,
         [Connect (connect_kwargs ssh);
          ExecCommand (join (text " ") (tail argv)) 30; Close]
         ++ fst (handle describe e),
         snd (handle describe e))
    end.
Proof.
  intros Hinit Hargs Ha.
  rewrite (main_with_object _ _ _ _ _ _ Hinit).
  apply Nat.ltb_lt in Hargs. rewrite Hargs.
  rewrite with_ssh_accepted by exact Ha.
  rewrite command_body_connected by reflexivity.
  destruct (command_result _ _ _); simpl; reflexivity.
Qed.

(** X19: called with arguments on a configuration that resolves and a remote
    side that accepts, [main] connects, runs the arguments joined by
    single blanks as one command with a timeout of 30, writes the result
    and a newline, closes the session and returns. *)
Theorem main_runs_command
    (describe : exn -> pystr) (argv : list pystr) (net : Remote)
    (turns : list tick) (w : World) (ssh : SSHClient) (output : pystr) :
  snd (__init__ None None None None None None w) = Ok ssh ->
  (1 < length argv)%nat ->
  accepts net (connect_kwargs ssh) = None ->
  command_result net (join (text " ") (tail argv)) 30 = Ok output ->
  main describe argv net turns w
  = (load_env None w,
     [Connect (connect_kwargs ssh);
      ExecCommand (join (text " ") (tail argv)) 30;
      Print (output ++ newline); Close],
     Completed).
Proof.
  intros Hinit Hargs Ha Hres.
  now rewrite (main_command_outcome describe argv net turns w ssh Hinit Hargs Ha),
    Hres.
Qed.

Lemma main_runs_command_witness :
  main (fun _ => []) [text "ssh_connect.py"; text "ls"; text "-l"]
    remote_both_streams [] world_file_only
  = (load_env None world_file_only,
     [Connect (connect_kwargs client_hup); ExecCommand (text "ls -l") 30;
      Print (text "out " ++ newline ++ text "warn" ++ newline); Close],
     Completed).
Proof.
  refine (main_runs_command (fun _ => [])
            [text "ssh_connect.py"; text "ls"; text "-l"]
            remote_both_streams [] world_file_only client_hup
            (text "out " ++ newline ++ text "warn") eq_refl _ eq_refl eq_refl).
  simpl. lia.
Defined.

(** X20: output that cannot be decoded as UTF-8 is reported as a
    configuration error: [UnicodeDecodeError] is a [ValueError], so after
    the session is closed [main] writes [Configuration error:] with the
    message of the exception and the five lines of the [.env] template,
    and exits with status [1], though the configuration was complete. *)
Theorem main_reports_undecodable_output_as_configuration
    (describe : exn -> pystr) (argv : list pystr) (net : Remote)
    (turns : list tick) (w : World) (ssh : SSHClient)
    (err : result pystr) :
  snd (__init__ None None None None None None w) = Ok ssh ->
  (1 < length argv)%nat ->
  accepts net (connect_kwargs ssh) = None ->
  remote_exec net (join (text " ") (tail argv)) 30
    = Ok (Raise UnicodeDecodeError, err) ->
  main describe argv net turns w
  = (load_env None w,
     [Connect (connect_kwargs ssh);
      ExecCommand (join (text " ") (tail argv)) 30;
      Close;
      Print (text "Configuration error: " ++ describe UnicodeDecodeError
             ++ [10%N]);
      Print ([10%N] ++ text "Create a .env file with:"
             ++ [10%N]);
      Print (text "  SSH_HOST=your-server.com" ++ [10%N]);
      Print (text "  SSH_USER=username" ++ [10%N]);
      Print (text "  SSH_KEY_PATH=~/.ssh/id_rsa  # or SSH_PASSWORD=yourpass"
             ++ [10%N])],
     SysExit 1).
Proof.
  intros Hinit Hargs Ha Hexec.
  rewrite (main_command_outcome describe argv net turns w ssh Hinit Hargs Ha).
  unfold command_result. now rewrite Hexec.
Qed.

Lemma main_reports_undecodable_output_as_configuration_witness :
  main (fun _ => text "invalid start byte")
    [text "ssh_connect.py"; text "cat"] remote_undecodable [] world_file_only
  = (load_env None world_file_only,
     [Connect (connect_kwargs client_hup); ExecCommand (text "cat") 30; Close;
      Print (text "Configuration error: invalid start byte"
             ++ [10%N]);
      Print ([10%N] ++ text "Create a .env file with:"
             ++ [10%N]);
      Print (text "  SSH_HOST=your-server.com" ++ [10%N]);
      Print (text "  SSH_USER=username" ++ [10%N]);
      Print (text "  SSH_KEY_PATH=~/.ssh/id_rsa  # or SSH_PASSWORD=yourpass"
             ++ [10%N])],
     SysExit 1).
Proof.
  refine (main_reports_undecodable_output_as_configuration
            (fun _ => text "invalid start byte")
            [text "ssh_connect.py"; text "cat"] remote_undecodable []
            world_file_only client_hup (Ok (text "warn")) eq_refl _
            eq_refl eq_refl).
  simpl. lia.
Defined.

(** X21: when the remote side refuses the connection, [main] reports the
    exception through its handlers and neither runs the command or the
    shell nor closes anything: an authentication failure ends with the
    hint about the credentials and status [1]. *)
Theorem main_reports_refused_connection
    (describe : exn -> pystr) (argv : list pystr) (net : Remote)
    (turns : list tick) (w : World) (ssh : SSHClient) (e : exn) :
  snd (__init__ None None None None None None w) = Ok ssh ->
  accepts net (connect_kwargs ssh) = Some e ->
  main describe argv net turns w
  = (load_env None w,
     Connect (connect_kwargs ssh) :: fst (handle describe e),
     snd (handle describe e))
  /\ (e = AuthenticationException ->
      main describe argv net turns w
      = (load_env None w,
         [Connect (connect_kwargs ssh);
          Print (text "Authentication failed. Check your credentials in .env"
                 ++ newline)],
         SysExit 1)).
Proof.
  intros Hinit Ha.
  rewrite (main_with_object _ _ _ _ _ _ Hinit).
  unfold with_ssh, __enter__. rewrite connect_outcome. simpl. rewrite Ha.
  simpl. split; [reflexivity|]. now intros ->.
Qed.

Lemma main_reports_refused_connection_witness :
  main (fun _ => []) [text "ssh_connect.py"] remote_refusing []
    world_file_only
  = (load_env None world_file_only,
     [Connect (connect_kwargs client_hup);
      Print (text "Authentication failed. Check your credentials in .env"
             ++ newline)],
     SysExit 1).
Proof.
  exact (proj2 (main_reports_refused_connection (fun _ => [])
                  [text "ssh_connect.py"] remote_refusing []
                  world_file_only client_hup AuthenticationException
                  eq_refl eq_refl) eq_refl).
Defined.

Lemma turn_effects_chatter (t : tick) :
  forallb is_chatter (turn_effects t) = true.
Proof.
  destruct t as [data ev]. unfold turn_effects. simpl.
  rewrite forallb_app. apply andb_true_intro. split.
  - now destruct data.
  - destruct ev; simpl; try reflexivity.
    induction replies; simpl; auto.
Qed.

Lemma relay_exit_turn (t : tick) (rest : list tick) (p : Process) :
  types_exit t = true ->
  relay_loop (t :: rest) p
  = (Ok Returned,
     {| self := self p;
        trace := trace p ++ List.map Print (option_list (remote_data t)) |}).
Proof.
  destruct t as [data ev]. destruct p as [s tr].
  unfold types_exit, typed_line. simpl. intros Hexit.
  unfold mbind, M_bind, bind.
  destruct ev as [|cmd|cmd replies| |]; try discriminate;
    try rewrite is_exit_newline in Hexit;
    destruct data as [d|]; simpl; rewrite Hexit; rewrite ?app_nil_r;
    reflexivity.
Qed.

Lemma relay_loop_only_talks (turns : list tick) (p : Process) :
  exists more,
    snd (relay_loop turns p) = {| self := self p; trace := trace p ++ more |}
    /\ forallb is_chatter more = true.
Proof.
  revert p. induction turns as [|t rest IH]; intros p.
  - exists []. simpl. rewrite app_nil_r. now destruct p.
  - destruct (goes_on t) eqn:Hg.
    + rewrite (relay_turn_effects t rest p Hg).
      destruct (IH {| self := self p; trace := trace p ++ turn_effects t |})
        as (more & -> & Hm).
      exists (turn_effects t ++ more). simpl. rewrite <- app_assoc.
      split; [reflexivity|].
      now rewrite forallb_app, turn_effects_chatter, Hm.
    + destruct (types_exit t) eqn:He.
      * rewrite (relay_exit_turn t rest p He). eexists. split; [reflexivity|].
        now destruct (remote_data t).
      * unfold goes_on in Hg. rewrite He in Hg. simpl in Hg.
        apply negb_false_iff in Hg.
        destruct t as [data ev]. destruct p as [s tr].
        unfold interrupted in Hg. simpl in Hg.
        simpl. unfold mbind, M_bind, bind.
        destruct ev; try discriminate; destruct data as [d|]; simpl;
          rewrite <- ?app_assoc;
          first [ exists []; rewrite app_nil_r; split; reflexivity
                | eexists; split; reflexivity ].
Qed.

Lemma interactive_shell_connected
    (net : Remote) (turns : list tick) (p : Process) :
  _client (self p) = connected ->
  interactive_shell net turns p
  = relay_loop turns
      {| self := self p;
         trace := trace p ++
           [InvokeShell;
            Print (text "Connected to " ++ format (user (self p)) ++ text "@"
                   ++ format (host (self p)) ++ newline);
            Print (text "Type 'exit' to disconnect" ++ newline ++ newline)] |}.
Proof.
  intros Hc. unfold interactive_shell, mbind, M_bind, bind.
  rewrite (ensure_client_some net p _ Hc).
  unfold with_transport, mbind, M_bind, bind, get_self, emit. simpl.
  rewrite Hc. simpl. now rewrite <- !app_assoc.
Qed.

Lemma paramiko_calls_app (a b : list effect) :
  paramiko_calls (a ++ b) = paramiko_calls a ++ paramiko_calls b.
Proof. unfold paramiko_calls. apply List.filter_app. Qed.

Lemma paramiko_calls_handle (describe : exn -> pystr) (e : exn) :
  paramiko_calls (fst (handle describe e)) = [].
Proof. destruct e; reflexivity. Qed.

Lemma paramiko_calls_chatter (more : list effect) :
  forallb is_chatter more = true ->
  forallb uses_session (paramiko_calls more) = true.
Proof.
  induction more as [|e r IH]; simpl; [reflexivity|].
  intros H. apply andb_prop in H. destruct H as [He Hr].
  destruct e; simpl; try discriminate; auto.
Qed.

(** X22: once the object is built and the remote side accepts, [main] closes
    the session however it ends, by returning, through [sys.exit] or with
    an exception no handler takes: its calls on paramiko are one
    [connect], then calls that use the session, then one [close] as the
    last call. *)
Theorem main_closes_session
    (describe : exn -> pystr) (argv : list pystr) (net : Remote)
    (turns : list tick) (w : World) (ssh : SSHClient) :
  snd (__init__ None None None None None None w) = Ok ssh ->
  accepts net (connect_kwargs ssh) = None ->
  snd (main describe argv net turns w) <> Looping ->
  exists mid,
    paramiko_calls (snd (fst (main describe argv net turns w)))
    = Connect (connect_kwargs ssh) :: mid ++ [Close]
    /\ forallb uses_session mid = true.
Proof.
  intros Hinit Ha.
  destruct (1 <? length argv)%nat eqn:Hargs.
  - apply Nat.ltb_lt in Hargs.
    rewrite (main_command_outcome describe argv net turns w ssh Hinit Hargs Ha).
    destruct (command_result _ _ _) as [output|e]; intros _; simpl.
    + now exists [ExecCommand (join (text " ") (tail argv)) 30].
    + exists [ExecCommand (join (text " ") (tail argv)) 30].
      now rewrite paramiko_calls_handle.
  - rewrite (main_with_object _ _ _ _ _ _ Hinit), Hargs.
    rewrite with_ssh_accepted by exact Ha.
    rewrite interactive_shell_connected by reflexivity.
    match goal with |- context [relay_loop turns ?q] =>
      destruct (relay_loop_only_talks turns q) as (more & Hsnd & Hm);
      destruct (relay_loop turns q) as [r p2] end.
    simpl in Hsnd. subst p2.
    exists (InvokeShell :: paramiko_calls more).
    destruct r as [[|]|e]; simpl in *; [congruence| |];
      rewrite ?paramiko_calls_app, ?paramiko_calls_handle; simpl;
      rewrite ?paramiko_calls_app; simpl; rewrite ?app_nil_r;
      (split; [reflexivity|now apply paramiko_calls_chatter]).
Qed.

Lemma main_closes_session_witness :
  exists mid,
    paramiko_calls
      (snd (fst (main (fun _ => []) [text "ssh_connect.py"] remote_both_streams
                   [turn (Input (text "ls") []); turn InputEOF]
                   world_file_only)))
    = Connect (connect_kwargs client_hup) :: mid ++ [Close]
    /\ forallb uses_session mid = true.
Proof.
  refine (main_closes_session (fun _ => []) [text "ssh_connect.py"]
            remote_both_streams [turn (Input (text "ls") []); turn InputEOF]
            world_file_only client_hup eq_refl eq_refl _).
  vm_compute. discriminate.
Defined.

Lemma join_cons (sep x y : pystr) (rest : list pystr) :
  join sep (x :: y :: rest) = x ++ sep ++ join sep (y :: rest).
Proof. reflexivity. Qed.

Lemma join_split_argument (sep a b : pystr) (xs ys : list pystr) :
  join sep (xs ++ (a ++ sep ++ b) :: ys) = join sep (xs ++ a :: b :: ys).
Proof.
  induction xs as [|x xs IH].
  - simpl app. rewrite join_cons.
    destruct ys as [|y ys]; simpl; [reflexivity|].
    now rewrite <- !app_assoc.
  - destruct xs as [|x' xs]; cbn [app] in *;
      change (join sep (x :: ?l)) with (x ++ sep ++ join sep l) at 1;
      rewrite IH; reflexivity.
Qed.

(** X23: the arguments reach the remote side as one line and their boundaries
    are lost: an argument that holds a blank gives the same run of [main]
    as the two arguments on either side of the blank would. *)
Theorem main_loses_argument_boundaries
    (describe : exn -> pystr) (script a b : pystr) (xs ys : list pystr)
    (net : Remote) (turns : list tick) (w : World) :
  join (text " ") (xs ++ (a ++ text " " ++ b) :: ys)
  = join (text " ") (xs ++ a :: b :: ys)
  /\ main describe (script :: xs ++ (a ++ text " " ++ b) :: ys) net turns w
     = main describe (script :: xs ++ a :: b :: ys) net turns w.
Proof.
  split; [apply join_split_argument|].
  assert (B : command_body net (script :: xs ++ (a ++ text " " ++ b) :: ys)
              = command_body net (script :: xs ++ a :: b :: ys)).
  { exact (f_equal
             (fun j => output ← run net j 30;
                       emit (Print (output ++ newline)) ;; ret Returned)
             (join_split_argument (text " ") a b xs ys)). }
  assert (L1 : (1 <? length (script :: xs ++ (a ++ text " " ++ b) :: ys))%nat = true).
  { apply Nat.ltb_lt. simpl. rewrite length_app. simpl. lia. }
  assert (L2 : (1 <? length (script :: xs ++ a :: b :: ys))%nat = true).
  { apply Nat.ltb_lt. simpl. rewrite length_app. simpl. lia. }
  unfold main. now rewrite L1, L2, B.
Qed.

(** X24: called without arguments on a configuration that resolves and a
    remote side that accepts, [main] opens the shell and writes the two
    lines of the banner; the turns before the first [exit] run in order,
    the output ready in the turn of [exit] is still written, and then the
    session is closed and [main] returns. *)
Theorem main_interactive_until_exit
    (describe : exn -> pystr) (argv : list pystr) (net : Remote)
    (pre post : list tick) (t : tick) (w : World) (ssh : SSHClient) :
  snd (__init__ None None None None None None w) = Ok ssh ->
  (length argv <= 1)%nat ->
  accepts net (connect_kwargs ssh) = None ->
  forallb goes_on pre = true ->
  types_exit t = true ->
  main describe argv net (pre ++ t :: post) w
  = (load_env None w,
     [Connect (connect_kwargs ssh); InvokeShell;
      Print (text "Connected to " ++ format (user ssh) ++ text "@"
             ++ format (host ssh) ++ newline);
      Print (text "Type 'exit' to disconnect" ++ newline ++ newline)]
     ++ List.concat (List.map turn_effects pre)
     ++ List.map Print (option_list (remote_data t))
     ++ [Close],
     Completed).
Proof.
  intros Hinit Hargs Ha Hpre Hexit.
  rewrite (main_with_object _ _ _ _ _ _ Hinit).
  assert (L : (1 <? length argv)%nat = false) by (apply Nat.ltb_ge; lia).
  rewrite L, with_ssh_accepted by exact Ha.
  rewrite interactive_shell_connected by reflexivity.
  rewrite (relay_prefix pre (t :: post) _ Hpre).
  rewrite (relay_exit_turn t post _ Hexit).
  rewrite close_outcome. simpl.
  now rewrite <- !app_assoc.
Qed.

Lemma main_interactive_until_exit_witness :
  main (fun _ => []) [text "ssh_connect.py"] remote_both_streams
    ([turn (ReadLine (text "ls" ++ newline))]
       ++ turn (ReadLine (text "EXIT" ++ newline)) :: [])
    world_file_only
  = (load_env None world_file_only,
     [Connect (connect_kwargs client_hup); InvokeShell;
      Print (text "Connected to u@h" ++ newline);
      Print (text "Type 'exit' to disconnect" ++ newline ++ newline);
      Send (text "ls" ++ newline); Close],
     Completed).
Proof.
  refine (main_interactive_until_exit (fun _ => []) [text "ssh_connect.py"]
            remote_both_streams [turn (ReadLine (text "ls" ++ newline))] []
            (turn (ReadLine (text "EXIT" ++ newline)))
            world_file_only client_hup eq_refl _ eq_refl eq_refl eq_refl).
  simpl. lia.
Defined.
